(** * SecUrAuditz backend: the audit-progress reconciler of [backend/server.js]

    A shallow embedding of the Express handlers that create audits, read
    them, read and write per-control responses and look controls up by
    framework, over an explicit model of the Firestore collections they use.
    JavaScript numbers are IEEE-754 binary64 values; the percentage
    computation is embedded over [SpecFloat] so that rounding behaves as it
    does in the running program. *)

From Stdlib Require Import ZArith Zpower Ascii Floats.SpecFloat.
From stdpp Require Import base option list gmap strings sorting.

Local Open Scope string_scope.
Local Open Scope list_scope.
Local Open Scope Z_scope.

(** ** JavaScript values *)

(** The scalar JSON values that reach the handlers in request bodies and
    that Firestore stores in document fields. *)
Inductive JsVal :=
| JUndefined
| JNull
| JBool (b : bool)
| JNum (n : Z)
| JStr (s : string).

#[global] Instance JsVal_eq_dec : EqDecision JsVal.
Proof. solve_decision. Defined.

(** [ToBoolean]: what [!v], [v || w] and [filter(x => x.f)] test. *)
Definition truthy (v : JsVal) : bool :=
  match v with
  | JUndefined | JNull => false
  | JBool b => b
  | JNum n => negb (n =? 0)
  | JStr s => negb (String.eqb s "")
  end.

(** [a || b] *)
Definition js_or (a b : JsVal) : JsVal := if truthy a then a else b.

(** ** JavaScript numbers *)

Definition prec : Z := 53.
Definition emax : Z := 1024.

(** A JS [Number]. *)
Definition Number := spec_float.

Definition Number_of_Z (z : Z) : Number := binary_normalize prec emax z 0 false.
Definition js_div (x y : Number) : Number := SFdiv prec emax x y.
Definition js_mul (x y : Number) : Number := SFmul prec emax x y.

Definition is_finite (x : Number) : bool :=
  match x with
  | S754_zero _ | S754_finite _ _ _ => true
  | _ => false
  end.

(** [Math.round]: the nearest integer, a tie going towards +infinity, that
    is [floor (x + 1/2)] computed exactly.  Every call site passes a finite
    value (integer operands, non-zero divisor); the non-finite values, which
    JS hands back unchanged, have no integer to map to and give 0 here. *)
Definition Math_round (x : Number) : Z :=
  match x with
  | S754_finite s m e =>
      let n := if s then Z.neg m else Z.pos m in
      if 0 <=? e then n * 2 ^ e
      else (2 * n + 2 ^ (- e)) / 2 ^ (1 - e)
  | _ => 0
  end.

(** ** Progress aggregation (server.js 326-327 and 478-479) *)

(** [(completed / total) * 100] as the program evaluates it. *)
Definition percentage (completed total : Z) : Number :=
  js_mul (js_div (Number_of_Z completed) (Number_of_Z total)) (Number_of_Z 100).

(** [total === 0 ? 0 : Math.round((completed / total) * 100)] *)
Definition overallProgress (completed total : Z) : Z :=
  if total =? 0 then 0 else Math_round (percentage completed total).

(** [p === 100 ? 'Completed' : (p > 0 ? 'In Progress' : 'Not Started')] *)
Definition overallStatus (p : Z) : string :=
  if p =? 100 then "Completed"
  else if 0 <? p then "In Progress"
  else "Not Started".

(** The same computation as the specification words it: the exact quotient
    [num / den], rounded to the nearest integer with halves going away from
    zero. *)
Definition round_half_away_from_zero (num den : Z) : Z :=
  if 0 <=? num then (2 * num + den) / (2 * den)
  else - ((2 * (- num) + den) / (2 * den)).

Definition spec_overallProgress (completed total : Z) : Z :=
  if total =? 0 then 0 else round_half_away_from_zero (100 * completed) total.

(** The exact percentage [100 * completed / total] lies half-way between two
    integers. *)
Definition is_tie (completed total : Z) : bool :=
  (200 * completed) mod (2 * total) =? total.

(** ** Documents *)

Record Framework := { fw_type : JsVal }.

Record Question := {
  q_question_text : JsVal;
  q_options : list (string * string)
}.

Record Control := {
  framework_id : string;
  control_objective : JsVal;
  questionnaires : option (list Question)
}.

Record QuestionResponse := {
  question_index : JsVal;
  question_text : JsVal;
  selected_option : JsVal;
  option_text : JsVal
}.

(** A response document.  A field the document lacks reads as [JUndefined]
    ([None] for the array). *)
Record Response := {
  control_id : JsVal;
  question_responses : option (list QuestionResponse);
  compliance_status : JsVal;
  justification_text : JsVal;
  maturity_level_selected : JsVal;
  evidence_path : JsVal;
  evidence_filename : JsVal;
  ai_recommendation : JsVal;
  response_date : JsVal
}.

Record Audit := {
  title : JsVal;
  description : JsVal;
  user_id : JsVal;
  domain_type : JsVal;
  frameworks_audited : list string;
  overall_status : string;
  overall_score : Z;
  created_at : Z;
  updated_at : Z;
  total_controls_in_audit : Z;
  completed_controls_in_audit : Z;
  client_company_name : JsVal;
  client_spoc_name : JsVal;
  client_spoc_email : JsVal;
  client_spoc_phone : JsVal
}.

(** The collections: [frameworks], [controls], [audits], and under each
    audit id the sub-collection [responses] keyed by control id.  A
    sub-collection exists independently of its parent document. *)
Record Store := {
  frameworks : gmap string Framework;
  controls : gmap string Control;
  audits : gmap string Audit;
  responses : gmap string (gmap string Response)
}.

Definition responses_of (st : Store) (auditId : string) : gmap string Response :=
  default ∅ (responses st !! auditId).

(** ** Document ids *)

(** Whether [s] holds the character [a]. *)
Fixpoint string_has (a : ascii) (s : string) : bool :=
  match s with
  | EmptyString => false
  | String b s' => Ascii.eqb a b || string_has a s'
  end.

(** Whether [s] ends with [t]. *)
Definition ends_with (t s : string) : bool :=
  String.eqb (String.substring (String.length s - String.length t) (String.length t) s) t
  && (String.length t <=? String.length s)%nat.

(** [collection.doc(path)] throws unless [path] is a non-empty string that
    names a document of the collection.  A path of two segments never does;
    one of three or more segments would name a document of a deeper
    collection, which the store of this model does not hold: the model
    takes the ids without a slash only, and answers for every other path as
    for one that [doc] refuses. *)
Definition doc_accepts (path : string) : bool :=
  negb (String.eqb path "") && negb (string_has "/" path).

(** The ids that the store refuses in every read and write: [.], [..], the
    ids of the form [__x__] and those longer than 1500 bytes. *)
Definition store_accepts (id : string) : bool :=
  negb (String.eqb id ".") && negb (String.eqb id "..")
  && negb ((4 <=? String.length id)%nat && String.prefix "__" id && ends_with "__" id)
  && (String.length id <=? 1500)%nat.

(** The strings that name a document. *)
Definition valid_document_id (id : string) : bool := doc_accepts id && store_accepts id.

(** ** Writes *)

(** The object handed to [set]: a field is either given a value or the key
    is absent. *)
Record ResponseData := {
  d_control_id : option JsVal;
  d_question_responses : option (list QuestionResponse);
  d_compliance_status : option JsVal;
  d_justification_text : option JsVal;
  d_maturity_level_selected : option JsVal;
  d_evidence_path : option JsVal;
  d_evidence_filename : option JsVal;
  d_ai_recommendation : option JsVal;
  d_response_date : option JsVal
}.

Definition no_response : Response :=
  {| control_id := JUndefined; question_responses := None;
     compliance_status := JUndefined; justification_text := JUndefined;
     maturity_level_selected := JUndefined; evidence_path := JUndefined;
     evidence_filename := JUndefined; ai_recommendation := JUndefined;
     response_date := JUndefined |}.

(** Field-wise overwrite: the keys present in [d] replace those of [old]. *)
Definition merge_fields (old : Response) (d : ResponseData) : Response :=
  {| control_id := default (control_id old) (d_control_id d);
     question_responses :=
       match d_question_responses d with
       | Some l => Some l
       | None => question_responses old
       end;
     compliance_status := default (compliance_status old) (d_compliance_status d);
     justification_text := default (justification_text old) (d_justification_text d);
     maturity_level_selected :=
       default (maturity_level_selected old) (d_maturity_level_selected d);
     evidence_path := default (evidence_path old) (d_evidence_path d);
     evidence_filename := default (evidence_filename old) (d_evidence_filename d);
     ai_recommendation := default (ai_recommendation old) (d_ai_recommendation d);
     response_date := default (response_date old) (d_response_date d) |}.

(** [set(ref, data)] replaces the document, [set(ref, data, {merge: true})]
    overwrites the given fields of the existing one. *)
Definition set_doc (old : option Response) (d : ResponseData) (merge : bool) : Response :=
  merge_fields (if merge then default no_response old else no_response) d.

(** The summary fields written by [update(auditDocRef, {...})]. *)
Definition update_summary (a : Audit) (score : Z) (status : string)
    (completed now : Z) : Audit :=
  {| title := title a; description := description a; user_id := user_id a;
     domain_type := domain_type a; frameworks_audited := frameworks_audited a;
     overall_status := status; overall_score := score;
     created_at := created_at a; updated_at := now;
     total_controls_in_audit := total_controls_in_audit a;
     completed_controls_in_audit := completed;
     client_company_name := client_company_name a;
     client_spoc_name := client_spoc_name a;
     client_spoc_email := client_spoc_email a;
     client_spoc_phone := client_spoc_phone a |}.

Definition with_audits (st : Store) (m : gmap string Audit) : Store :=
  {| frameworks := frameworks st; controls := controls st; audits := m;
     responses := responses st |}.

Definition with_responses (st : Store) (m : gmap string (gmap string Response)) : Store :=
  {| frameworks := frameworks st; controls := controls st; audits := audits st;
     responses := m |}.

Definition with_controls (st : Store) (m : gmap string Control) : Store :=
  {| frameworks := frameworks st; controls := m; audits := audits st;
     responses := responses st |}.

(** One operation staged in a write batch. *)
Inductive Write :=
| SetResponse (auditId controlId : string) (d : ResponseData) (merge : bool)
| UpdateSummary (auditId : string) (score : Z) (status : string) (completed now : Z)
| SetControl (id : string) (c : Control).

(** A staged write as [commit] applies it.  [update] fails when the document
    does not exist.  [set] refuses a field whose value is [undefined] when
    the write is staged, so the handlers that can stage one test for it
    before this point; a [set] that was staged does not fail. *)
Definition apply_write (st : Store) (w : Write) : option Store :=
  match w with
  | SetResponse a c d merge =>
      let sub := responses_of st a in
      Some (with_responses st (<[a := <[c := set_doc (sub !! c) d merge]> sub]> (responses st)))
  | UpdateSummary a score status completed now =>
      match audits st !! a with
      | Some doc =>
          Some (with_audits st (<[a := update_summary doc score status completed now]> (audits st)))
      | None => None
      end
  | SetControl id c => Some (with_controls st (<[id := c]> (controls st)))
  end.

(** [batch.commit()]: all the staged writes or none. *)
Definition commit (st : Store) (batch : list Write) : option Store :=
  foldl (λ acc w, acc ≫= λ s, apply_write s w) (Some st) batch.

(** ** Queries *)

(** [db.collection('frameworks').where('type', '==', t).get()], as ids. *)
Definition frameworks_where_type (st : Store) (t : JsVal) : list string :=
  (filter (λ d, fw_type d.2 = t) (map_to_list (frameworks st))).*1.

(** The largest number of comparison values the store accepts in one
    ['in'] query (server.js 123). *)
Definition in_limit : nat := 10.

(** The controls whose [framework_id] is one of [ids]. *)
Definition controls_in (st : Store) (ids : list string) : list (string * Control) :=
  filter (λ d, framework_id d.2 ∈ ids) (map_to_list (controls st)).

(** [db.collection('controls').where('framework_id', 'in', ids).get()]:
    rejected by the store ([None]) when [ids] exceeds the limit. *)
Definition controls_where_in (st : Store) (ids : list string)
    : option (list (string * Control)) :=
  if decide (length ids ≤ in_limit)%nat then Some (controls_in st ids) else None.

Definition chunkSize : nat := 10.

(** [l.slice(b, e)] *)
Definition slice {A} (b e : nat) (l : list A) : list A := take (e - b) (drop b l).

(** The loop [for (let i = 0; i < ids.length; i += chunkSize)] that the audit
    handlers share: one ['in'] query per chunk, results concatenated.  It
    returns the controls found ([None] if the store rejected a query) and the
    list of id lists it queried with.  The index grows by [chunkSize] each
    turn, so [length ids] turns of fuel let the loop reach its exit test. *)
Fixpoint fetch_loop (st : Store) (ids : list string) (fuel i : nat)
    (acc : list (string * Control)) (log : list (list string))
    : option (list (string * Control)) * list (list string) :=
  match fuel with
  | O => (Some acc, log)
  | S fuel' =>
      if decide (i < length ids)%nat then
        let chunk := slice i (i + chunkSize) ids in
        match controls_where_in st chunk with
        | Some docs => fetch_loop st ids fuel' (i + chunkSize) (acc ++ docs) (log ++ [chunk])
        | None => (None, log ++ [chunk])
        end
      else (Some acc, log)
  end.

Definition fetchControls (st : Store) (ids : list string)
    : option (list (string * Control)) * list (list string) :=
  fetch_loop st ids (length ids) 0%nat [] [].

(** [new Map(pairs)]: a later pair replaces an earlier one with its key. *)
Definition Map_of (l : list (string * Control)) : gmap string Control :=
  foldl (λ m p, <[p.1 := p.2]> m) ∅ l.

(** [map.get(k)] on a map with string keys. *)
Definition Map_get (m : gmap string Control) (k : JsVal) : option Control :=
  match k with
  | JStr s => m !! s
  | _ => None
  end.

(** ** Per-control completeness (server.js 312-321 and 464-474) *)

(** [c.questionnaires?.length || 0] *)
Definition numQuestions (c : Control) : Z :=
  match questionnaires c with
  | Some qs => Z.of_nat (length qs)
  | None => 0
  end.

(** [qrs.filter(qr => qr.selected_option).length] *)
Definition answeredCount (qrs : list QuestionResponse) : Z :=
  Z.of_nat (length (filter (λ qr, truthy (selected_option qr)) qrs)).

(** [numQuestions > 0 && r.question_responses && answered === numQuestions] *)
Definition allQuestionsAnswered (c : Control) (r : Response) : bool :=
  (0 <? numQuestions c) &&
  match question_responses r with
  | Some qrs => answeredCount qrs =? numQuestions c
  | None => false
  end.

Definition terminal_statuses : list JsVal :=
  [JStr "Yes"; JStr "Partial"; JStr "No"; JStr "Not Applicable"].

(** [['Yes', 'Partial', 'No', 'Not Applicable'].includes(status)] *)
Definition overallStatusSet (status : JsVal) : bool :=
  bool_decide (status ∈ terminal_statuses).

Definition isComplete (c : Control) (r : Response) : bool :=
  allQuestionsAnswered c r && overallStatusSet (compliance_status r).

(** The pass over the response documents that increments the counter for
    each response whose control definition is found and that is complete. *)
Definition countCompleted (defs : gmap string Control)
    (docs : list (string * Response)) : Z :=
  foldl (λ n doc,
           match Map_get defs (control_id doc.2) with
           | Some c => if isComplete c doc.2 then n + 1 else n
           | None => n
           end) 0 docs.

(** ** Handlers *)

Inductive Reply (A : Type) :=
| Ok (body : A)
| Created (body : A)
| BadRequest
| NotFound
| ServerError.
Arguments Ok {A} body.
Arguments Created {A} body.
Arguments BadRequest {A}.
Arguments NotFound {A}.
Arguments ServerError {A}.

(** What a handler run leaves behind: the HTTP reply, the store, and the id
    lists of the ['in'] queries it issued, in order. *)
Record Outcome (A : Type) := {
  reply : Reply A;
  store : Store;
  in_queries : list (list string)
}.
Arguments reply {A} o.
Arguments store {A} o.
Arguments in_queries {A} o.

(** *** GET /api/frameworks/:type/controls *)
Definition getFrameworkControls (st : Store) (type : string)
    : Outcome (list (string * Control)) :=
  let frameworkIds := frameworks_where_type st (JStr type) in
  if decide (length frameworkIds = 0%nat) then
    {| reply := Ok []; store := st; in_queries := [] |}
  else
    match controls_where_in st frameworkIds with
    | Some docs => {| reply := Ok docs; store := st; in_queries := [frameworkIds] |}
    | None => {| reply := ServerError; store := st; in_queries := [frameworkIds] |}
    end.

(** *** POST /api/audits *)

Record AuditBody := {
  ab_title : JsVal;
  ab_description : JsVal;
  ab_domain_type : JsVal;
  ab_userId : JsVal;
  ab_client_company_name : JsVal;
  ab_client_spoc_name : JsVal;
  ab_client_spoc_email : JsVal;
  ab_client_spoc_phone : JsVal
}.

(** [(questionnaires || []).map((q, index) => ({..., selected_option: null,
    option_text: null}))] *)
Definition initialQuestionResponses (qs : option (list Question))
    : list QuestionResponse :=
  imap (λ index q,
          {| question_index := JNum (Z.of_nat index);
             question_text := q_question_text q;
             selected_option := JNull;
             option_text := JNull |}) (default [] qs).

Definition initialResponseData (id : string) (control : Control) : ResponseData :=
  {| d_control_id := Some (JStr id);
     d_question_responses := Some (initialQuestionResponses (questionnaires control));
     d_compliance_status := Some (JStr "Not Answered");
     d_justification_text := Some JNull;
     d_maturity_level_selected := Some JNull;
     d_evidence_path := Some JNull;
     d_evidence_filename := Some JNull;
     d_ai_recommendation := Some JNull;
     d_response_date := Some JNull |}.

(** [now] and [now'] are the two readings of the clock, of lines 212 and
    213. *)
Definition newAudit (body : AuditBody) (frameworksAuditedIds : list string)
    (total now now' : Z) : Audit :=
  {| title := ab_title body;
     description := js_or (ab_description body) (JStr "");
     user_id := ab_userId body;
     domain_type := ab_domain_type body;
     frameworks_audited := frameworksAuditedIds;
     overall_status := "Not Started";
     overall_score := 0;
     created_at := now;
     updated_at := now';
     total_controls_in_audit := total;
     completed_controls_in_audit := 0;
     client_company_name := ab_client_company_name body;
     client_spoc_name := js_or (ab_client_spoc_name body) JNull;
     client_spoc_email := js_or (ab_client_spoc_email body) JNull;
     client_spoc_phone := js_or (ab_client_spoc_phone body) JNull |}.

(** [batch.set] throws when a field of the data is [undefined]: the
    placeholder of a control can be staged when each of its questions has a
    [question_text]. *)
Definition stageable (control : string * Control) : bool :=
  forallb (λ q, negb (bool_decide (q_question_text q = JUndefined)))
          (default [] (questionnaires control.2)).

(** [newId] is the document id that [add] generates, which names a
    document: nothing is added under a string that does not.  The audit
    document is added before the placeholders are staged, so a control that
    cannot be staged leaves the audit stored without any response. *)
Definition createAudit (st : Store) (now now' : Z) (newId : string) (body : AuditBody)
    : Outcome (string * Audit) :=
  if negb (truthy (ab_title body)) || negb (truthy (ab_domain_type body))
     || negb (truthy (ab_userId body)) || negb (truthy (ab_client_company_name body))
  then {| reply := BadRequest; store := st; in_queries := [] |}
  else
    let frameworksAuditedIds := frameworks_where_type st (ab_domain_type body) in
    if decide (length frameworksAuditedIds = 0%nat) then
      {| reply := NotFound; store := st; in_queries := [] |}
    else
      match fetchControls st frameworksAuditedIds with
      | (None, log) => {| reply := ServerError; store := st; in_queries := log |}
      | (Some allControlsForDomain, log) =>
          let doc := newAudit body frameworksAuditedIds
                       (Z.of_nat (length allControlsForDomain)) now now' in
          if negb (valid_document_id newId) then
            {| reply := ServerError; store := st; in_queries := log |}
          else
            let st1 := with_audits st (<[newId := doc]> (audits st)) in
            if negb (forallb stageable allControlsForDomain) then
              {| reply := ServerError; store := st1; in_queries := log |}
            else
              let batch := map (λ control, SetResponse newId control.1
                                             (initialResponseData control.1 control.2) false)
                               allControlsForDomain in
              match commit st1 batch with
              | Some st2 => {| reply := Created (newId, doc); store := st2; in_queries := log |}
              | None => {| reply := ServerError; store := st1; in_queries := log |}
              end
      end.

(** *** GET /api/audits/:id *)

Record AuditView := {
  av_id : string;
  av_audit : Audit;
  av_responses : list (string * Response)
}.

(** [a.overall_score !== p || a.overall_status !== s ||
    a.completed_controls_in_audit !== c] *)
Definition summary_differs (a : Audit) (p : Z) (s : string) (c : Z) : bool :=
  negb (overall_score a =? p) || negb (String.eqb (overall_status a) s)
  || negb (completed_controls_in_audit a =? c).

(** [doc(auditId).get()] of lines 280-281 fails for a string that names no
    document, which the handler reports as a server error. *)
Definition getAudit (st : Store) (now : Z) (auditId : string) : Outcome AuditView :=
  if negb (valid_document_id auditId) then
    {| reply := ServerError; store := st; in_queries := [] |}
  else
  match audits st !! auditId with
  | None => {| reply := NotFound; store := st; in_queries := [] |}
  | Some auditData =>
      match fetchControls st (frameworks_audited auditData) with
      | (None, log) => {| reply := ServerError; store := st; in_queries := log |}
      | (Some allControlsForAudit, log) =>
          let controlDefinitionsMap := Map_of allControlsForAudit in
          let totalExpectedControls := Z.of_nat (length allControlsForAudit) in
          let docs := map_to_list (responses_of st auditId) in
          let completedControlsCount := countCompleted controlDefinitionsMap docs in
          let progress := overallProgress completedControlsCount totalExpectedControls in
          let status := overallStatus progress in
          if summary_differs auditData progress status completedControlsCount then
            match commit st [UpdateSummary auditId progress status completedControlsCount now] with
            | Some st' =>
                {| reply := Ok {| av_id := auditId;
                                  av_audit := update_summary auditData progress status
                                                completedControlsCount (updated_at auditData);
                                  av_responses := docs |};
                   store := st'; in_queries := log |}
            | None => {| reply := ServerError; store := st; in_queries := log |}
            end
          else
            {| reply := Ok {| av_id := auditId; av_audit := auditData; av_responses := docs |};
               store := st; in_queries := log |}
      end
  end.

(** *** GET /api/audits/:auditId/responses/:controlId *)

(** [doc(auditId).collection('responses').doc(controlId).get()] of lines
    355-356 fails when either string names no document. *)
Definition getResponse (st : Store) (auditId controlId : string) : Outcome Response :=
  if negb (valid_document_id auditId && valid_document_id controlId) then
    {| reply := ServerError; store := st; in_queries := [] |}
  else
  match responses_of st auditId !! controlId with
  | None =>
      let controlDefData := controls st !! controlId in
      {| reply := Ok {| control_id := JStr controlId;
                        question_responses :=
                          Some (initialQuestionResponses (controlDefData ≫= questionnaires));
                        compliance_status := JStr "Not Answered";
                        justification_text := JStr "";
                        maturity_level_selected := JNull;
                        evidence_path := JNull;
                        evidence_filename := JNull;
                        ai_recommendation := JNull;
                        response_date := JUndefined |};
         store := st; in_queries := [] |}
  | Some responseData => {| reply := Ok responseData; store := st; in_queries := [] |}
  end.

(** *** PUT /api/audits/:id/responses *)

Record ResponseBody := {
  rb_control_id : JsVal;
  (** [None]: not an array *)
  rb_question_responses : option (list QuestionResponse);
  rb_compliance_status : JsVal;
  rb_justification_text : JsVal;
  rb_maturity_level_selected : JsVal;
  rb_evidence_path : JsVal;
  rb_evidence_filename : JsVal;
  rb_ai_recommendation : JsVal
}.

(** The object literal of server.js 415-425. *)
Definition responseData (control_id : JsVal) (question_responses : list QuestionResponse)
    (body : ResponseBody) (now : Z) : ResponseData :=
  {| d_control_id := Some control_id;
     d_question_responses := Some question_responses;
     d_compliance_status := Some (js_or (rb_compliance_status body) (JStr "Not Answered"));
     d_justification_text := Some (js_or (rb_justification_text body) JNull);
     d_maturity_level_selected := Some (js_or (rb_maturity_level_selected body) JNull);
     d_evidence_path := Some (js_or (rb_evidence_path body) JNull);
     d_evidence_filename := Some (js_or (rb_evidence_filename body) JNull);
     d_ai_recommendation := Some (js_or (rb_ai_recommendation body) JNull);
     d_response_date := Some (JNum now) |}.

(** The reply carries [newOverallProgress] and [newOverallStatus].  [now]
    and [now'] are the two readings of the clock, of lines 424 and 485.

    [doc(auditId)] and [doc(control_id)] of lines 410-411 throw for a path
    that [doc] refuses, as for a [control_id] that is not a string; an id
    that the store refuses fails the read that first names it, line 427 for
    the audit and line 435 for the control.  Each failure is reported as a
    server error, and nothing was committed by then.

    The response write is only staged when the responses are read back, so
    the count is taken over the stored responses as they were before this
    request; both writes reach the store together at [commit].

    The per-request [allQuestionsAnswered] and [overallStatusSet] of lines
    435-441 are computed and their values never used.  The filter of line
    440, which runs when the control of the request has a question, reads
    [selected_option] of every entry of the array and throws for an entry
    that is [null]: the entries of this model are objects, an entry that is
    a number, a string or a boolean reading as an object without fields. *)
Definition putResponse (st : Store) (now now' : Z) (auditId : string) (body : ResponseBody)
    : Outcome (Z * string) :=
  match truthy (rb_control_id body), rb_question_responses body with
  | true, Some question_responses =>
      match rb_control_id body with
      | JStr control_id =>
          if negb (doc_accepts auditId && doc_accepts control_id) then
            {| reply := ServerError; store := st; in_queries := [] |}
          else
          let batch := [SetResponse auditId control_id
                          (responseData (JStr control_id) question_responses body now) true] in
          if negb (store_accepts auditId) then
            {| reply := ServerError; store := st; in_queries := [] |}
          else
          match audits st !! auditId with
          | None => {| reply := NotFound; store := st; in_queries := [] |}
          | Some auditData =>
              if negb (store_accepts control_id) then
                {| reply := ServerError; store := st; in_queries := [] |}
              else
              let totalExpectedControls := total_controls_in_audit auditData in
              let docs := map_to_list (responses_of st auditId) in
              match fetchControls st (frameworks_audited auditData) with
              | (None, log) => {| reply := ServerError; store := st; in_queries := log |}
              | (Some allControlsForAudit, log) =>
                  let currentControlDefinitionsMap := Map_of allControlsForAudit in
                  let currentCompletedControlsCount :=
                    countCompleted currentControlDefinitionsMap docs in
                  let newOverallProgress :=
                    overallProgress currentCompletedControlsCount totalExpectedControls in
                  let newOverallStatus := overallStatus newOverallProgress in
                  let batch := batch ++ [UpdateSummary auditId newOverallProgress
                                           newOverallStatus currentCompletedControlsCount now'] in
                  match commit st batch with
                  | Some st' =>
                      {| reply := Ok (newOverallProgress, newOverallStatus);
                         store := st'; in_queries := log |}
                  | None => {| reply := ServerError; store := st; in_queries := log |}
                  end
              end
          end
      | _ => {| reply := ServerError; store := st; in_queries := [] |}
      end
  | _, _ => {| reply := BadRequest; store := st; in_queries := [] |}
  end.

(** *** POST /api/seed-controls *)

(** The body is an array of controls with their [id] ([None]: not an
    array).  A control without id is skipped; an id that is not a string, or
    a path that [doc] refuses, makes [doc(id)] throw before anything is
    committed, and an id that the store refuses fails the commit of the
    whole batch: in each case there is no batch to apply ([None]).  Each
    control is stored with [merge: false]; the [created_at] and [updated_at]
    the handler adds to it are not fields of [Control]. *)
Definition seed_batch (controlsData : list (JsVal * Control)) : option (list Write) :=
  foldr (λ control rest,
           if truthy control.1 then
             match control.1 with
             | JStr id =>
                 if valid_document_id id then (SetControl id control.2 ::.) <$> rest
                 else None
             | _ => None
             end
           else rest) (Some []) controlsData.

Definition seedControls (st : Store) (body : option (list (JsVal * Control)))
    : Outcome Z :=
  match body with
  | Some (control :: rest) =>
      let controlsData := control :: rest in
      match seed_batch controlsData ≫= commit st with
      | Some st' =>
          {| reply := Created (Z.of_nat (length controlsData)); store := st'; in_queries := [] |}
      | None => {| reply := ServerError; store := st; in_queries := [] |}
      end
  | _ => {| reply := BadRequest; store := st; in_queries := [] |}
  end.

(** ** A small catalogue to run the handlers on *)

Definition yes_no : list (string * string) := [("a", "Yes"); ("b", "No")].

Definition question (text : string) : Question :=
  {| q_question_text := JStr text; q_options := yes_no |}.

Definition control_in (fw : string) (qs : list Question) : Control :=
  {| framework_id := fw; control_objective := JStr "objective";
     questionnaires := Some qs |}.

Definition answer (i : Z) (text : string) (selected : JsVal) : QuestionResponse :=
  {| question_index := JNum i; question_text := JStr text;
     selected_option := selected; option_text := JNull |}.

Definition audit_request (domain : string) : AuditBody :=
  {| ab_title := JStr "Audit"; ab_description := JUndefined;
     ab_domain_type := JStr domain; ab_userId := JStr "u1";
     ab_client_company_name := JStr "Client"; ab_client_spoc_name := JUndefined;
     ab_client_spoc_email := JUndefined; ab_client_spoc_phone := JUndefined |}.

(** A request body that gives only the control id, the answers and the
    verdict. *)
Definition response_request (cid : JsVal) (qrs : option (list QuestionResponse))
    (status : JsVal) : ResponseBody :=
  {| rb_control_id := cid; rb_question_responses := qrs;
     rb_compliance_status := status; rb_justification_text := JUndefined;
     rb_maturity_level_selected := JUndefined; rb_evidence_path := JUndefined;
     rb_evidence_filename := JUndefined; rb_ai_recommendation := JUndefined |}.

Definition empty_store : Store :=
  {| frameworks := ∅; controls := ∅; audits := ∅; responses := ∅ |}.

(** One framework of type Cloud holding control [A] (two questions) and
    control [B] (one question). *)
Definition catalogue : Store :=
  {| frameworks := {[ "F1" := {| fw_type := JStr "Cloud" |} ]};
     controls := {[ "A" := control_in "F1" [question "q1"; question "q2"];
                    "B" := control_in "F1" [question "q3"] ]};
     audits := ∅;
     responses := ∅ |}.

(** ** Definitions used to state the properties *)

(** The pairs [(completed, total)] with [total <= 200] on which the double
    product falls below a half that the exact percentage reaches. *)
Definition tie_misses : list (Z * Z) :=
  [(23, 40); (46, 80); (69, 120); (92, 160);
   (29, 200); (57, 200); (113, 200); (115, 200)].

Definition misses (completed total : Z) : bool :=
  existsb (λ m, (m.1 =? completed) && (m.2 =? total)) tie_misses.

(** What one pair [(completed, total)] with [total > 0] is checked for: the
    product is finite, its rounded value [p] lies in 0..100, [p] is the
    exactly rounded percentage except on the pairs of [tie_misses], which
    are ties and where it is one less, and below 200 controls [p] is 0 or 100
    only at the ends. *)
Definition pair_ok (completed total : Z) : bool :=
  let x := percentage completed total in
  let p := Math_round x in
  let q := round_half_away_from_zero (100 * completed) total in
  is_finite x
  && (0 <=? p) && (p <=? 100)
  && (if misses completed total then is_tie completed total && (p =? q - 1) else p =? q)
  && (if total <? 200
      then implb (p =? 100) (completed =? total) && implb (p =? 0) (completed =? 0)
      else true).

Definition column_ok (total : Z) : bool :=
  forallb (λ completed, pair_ok completed total) (seqZ 0 (total + 1)).

Definition table_ok (bound : Z) : bool := forallb column_ok (seqZ 1 bound).

(** Eleven frameworks of one type. *)
Definition eleven_frameworks : Store :=
  {| frameworks :=
       list_to_map ((λ id, (id, {| fw_type := JStr "Cloud" |})) <$>
         ["F01"; "F02"; "F03"; "F04"; "F05"; "F06"; "F07"; "F08"; "F09"; "F10"; "F11"]);
     controls := {[ "A" := control_in "F01" [question "q1"] ]};
     audits := ∅;
     responses := ∅ |}.

(** The predicate as the specification words it: an answer counts when its
    [selected_option] is not null. *)
Definition spec_answeredCount (r : Response) : Z :=
  Z.of_nat (length (filter (λ qr, selected_option qr ≠ JNull)
                           (default [] (question_responses r)))).

Definition spec_isComplete (c : Control) (r : Response) : Prop :=
  0 < numQuestions c
  ∧ spec_answeredCount r = numQuestions c
  ∧ compliance_status r ∈ terminal_statuses.

(** Whether the pass over the responses counts this document. *)
Definition counted (defs : gmap string Control) (doc : string * Response) : bool :=
  match Map_get defs (control_id doc.2) with
  | Some c => isComplete c doc.2
  | None => false
  end.

(** A control with one question, whose single answer carries the empty
    string as [selected_option], with verdict Yes. *)
Definition blank_answer : Response :=
  {| control_id := JStr "B";
     question_responses := Some [answer 0 "q3" (JStr "")];
     compliance_status := JStr "Yes";
     justification_text := JNull; maturity_level_selected := JNull;
     evidence_path := JNull; evidence_filename := JNull;
     ai_recommendation := JNull; response_date := JNull |}.

(** The store after the batch of a response upsert has committed. *)
Definition upserted (st : Store) (now now' : Z) (auditId cid : string)
    (qrs : list QuestionResponse) (body : ResponseBody) (a : Audit) (count : Z) : Store :=
  let p := overallProgress count (total_controls_in_audit a) in
  let sub := responses_of st auditId in
  with_audits
    (with_responses st
       (<[auditId := <[cid := set_doc (sub !! cid) (responseData (JStr cid) qrs body now) true]> sub]>
          (responses st)))
    (<[auditId := update_summary a p (overallStatus p) count now']> (audits st)).

(** The catalogue after an audit [X] over the Cloud frameworks was created
    at time 1. *)
Definition audited : Store :=
  store (createAudit catalogue 1 1 "X" (audit_request "Cloud")).

(** Both questions of control [A] answered, verdict Yes, nothing else
    supplied. *)
Definition answers_A : ResponseBody :=
  response_request (JStr "A")
    (Some [answer 0 "q1" (JStr "a"); answer 1 "q2" (JStr "b")]) (JStr "Yes").

Definition answers_B (status : JsVal) (selected : JsVal) : ResponseBody :=
  response_request (JStr "B") (Some [answer 0 "q3" selected]) status.

Definition justified (body : ResponseBody) (text : JsVal) : ResponseBody :=
  {| rb_control_id := rb_control_id body;
     rb_question_responses := rb_question_responses body;
     rb_compliance_status := rb_compliance_status body;
     rb_justification_text := text;
     rb_maturity_level_selected := rb_maturity_level_selected body;
     rb_evidence_path := rb_evidence_path body;
     rb_evidence_filename := rb_evidence_filename body;
     rb_ai_recommendation := rb_ai_recommendation body |}.

Definition initial_batch (auditId : string) (found : list (string * Control)) : list Write :=
  map (λ control, SetResponse auditId control.1
                    (initialResponseData control.1 control.2) false) found.

(** The placeholder that audit creation stores for a control. *)
Definition placeholder (cid : string) (c : Control) : Response :=
  set_doc None (initialResponseData cid c) false.

(** The audit document that the creation of [X] stores and returns. *)
Definition audit_X : Audit := newAudit (audit_request "Cloud") ["F1"] 2 1 1.

Definition summary_of (a : Audit) : Z * string * Z :=
  (overall_score a, overall_status a, completed_controls_in_audit a).

Definition reply_summary (r : Reply AuditView) : option (Z * string * Z) :=
  match r with
  | Ok view => Some (summary_of (av_audit view))
  | _ => None
  end.

(** The summary that reading audit [a] computes afresh from the store. *)
Definition computed_on_read (st : Store) (auditId : string) (a : Audit)
    : option (Z * string * Z) :=
  match fetchControls st (frameworks_audited a) with
  | (Some found, _) =>
      let c := countCompleted (Map_of found) (map_to_list (responses_of st auditId)) in
      let p := overallProgress c (Z.of_nat (length found)) in
      Some (p, overallStatus p, c)
  | (None, _) => None
  end.

(** Audit [X] with both its controls answered and complete, after a third
    control was seeded into the audited framework. *)
Definition grown : Store :=
  let st1 := store (putResponse audited 2 2 "X" answers_A) in
  let st2 := store (putResponse st1 3 3 "X" (answers_B (JStr "Not Applicable") (JStr "a"))) in
  store (seedControls st2 (Some [(JStr "C", control_in "F1" [question "q4"])])).

(** ** The remaining catalogue and audit routes *)

(** *** GET /api/frameworks *)
Definition getFrameworks (st : Store) : Outcome (list (string * Framework)) :=
  {| reply := Ok (map_to_list (frameworks st)); store := st; in_queries := [] |}.

(** *** GET /api/audits?userId= *)

(** [orderBy('created_at', 'desc')] *)
Definition newer_first (d1 d2 : string * Audit) : Prop :=
  created_at d2.2 ≤ created_at d1.2.

#[global] Instance newer_first_dec : RelDecision newer_first.
Proof. intros d1 d2. unfold newer_first. apply _. Defined.

(** [userId] is the query parameter, [None] when the request has none.  The
    audits of the user come back newest first; audits created at the same
    time come in the order the store lists them. *)
Definition listAudits (st : Store) (userId : option string)
    : Outcome (list (string * Audit)) :=
  match userId with
  | Some u =>
      if String.eqb u "" then {| reply := BadRequest; store := st; in_queries := [] |}
      else
        {| reply := Ok (merge_sort newer_first
                          (filter (λ d, user_id d.2 = JStr u) (map_to_list (audits st))));
           store := st; in_queries := [] |}
  | None => {| reply := BadRequest; store := st; in_queries := [] |}
  end.

(** ** Definitions used to state the further properties *)

(** The catalogue with a third control [C], whose only question has no
    [question_text]. *)
Definition untexted : Store :=
  with_controls catalogue
    (<["C" := control_in "F1" [{| q_question_text := JUndefined; q_options := yes_no |}]]>
       (controls catalogue)).


(** The four fields audit creation requires are all present. *)
Definition required_fields (body : AuditBody) : bool :=
  truthy (ab_title body) && truthy (ab_domain_type body)
  && truthy (ab_userId body) && truthy (ab_client_company_name body).

(** The requests that reach the store. *)
Inductive Request :=
| CreateAudit (newId : string) (body : AuditBody)
| GetAudit (auditId : string)
| GetResponse (auditId controlId : string)
| PutResponse (auditId : string) (body : ResponseBody)
| SeedControls (body : option (list (JsVal * Control)))
| GetFrameworkControls (type : string)
| ListAudits (userId : option string).

(** The store a request leaves behind when the clock reads [now] and then
    [now'] while it is served. *)
Definition handle (st : Store) (now now' : Z) (r : Request) : Store :=
  match r with
  | CreateAudit newId body => store (createAudit st now now' newId body)
  | GetAudit auditId => store (getAudit st now auditId)
  | GetResponse auditId controlId => store (getResponse st auditId controlId)
  | PutResponse auditId body => store (putResponse st now now' auditId body)
  | SeedControls body => store (seedControls st body)
  | GetFrameworkControls type => store (getFrameworkControls st type)
  | ListAudits userId => store (listAudits st userId)
  end.

(** The id that [add] generates for a new audit names no existing audit. *)
Definition fresh (st : Store) (r : Request) : Prop :=
  match r with
  | CreateAudit newId _ => audits st !! newId = None
  | _ => True
  end.

(** The stores the routes can produce, starting without audits and
    responses over any catalogue. *)
Inductive reachable : Store → Prop :=
| reachable_start st :
    audits st = ∅ → responses st = ∅ → reachable st
| reachable_step st now now' r :
    reachable st → fresh st r → reachable (handle st now now' r).

(** The controls of a seed request that reach the store: those whose id is
    a non-empty string, in the order of the request. *)
Definition seeded (controlsData : list (JsVal * Control)) : list (string * Control) :=
  omap (λ control, match control.1 with
                   | JStr id => if String.eqb id "" then None else Some (id, control.2)
                   | _ => None
                   end) controlsData.

(** A seed request in which every id that is present is a string that
    names a document. *)
Definition document_ids (controlsData : list (JsVal * Control)) : Prop :=
  Forall (λ control, truthy control.1 = true →
                     ∃ id, control.1 = JStr id ∧ valid_document_id id = true) controlsData.

(** Every stored response belongs to an existing audit, names the control it
    is stored under, holds an array of question responses and a non-empty
    compliance status. *)
Definition responses_ok (st : Store) : Prop :=
  ∀ auditId cid r,
    responses_of st auditId !! cid = Some r →
    is_Some (audits st !! auditId)
    ∧ control_id r = JStr cid
    ∧ is_Some (question_responses r)
    ∧ truthy (compliance_status r) = true.

(** Every stored audit has the status its score determines, a completed
    count between 0 and the number of its responses, a total that is not
    negative and at least one audited framework, none listed twice. *)
Definition audits_ok (st : Store) : Prop :=
  ∀ auditId doc,
    audits st !! auditId = Some doc →
    overall_status doc = overallStatus (overall_score doc)
    ∧ 0 ≤ completed_controls_in_audit doc ≤ Z.of_nat (size (responses_of st auditId))
    ∧ 0 ≤ total_controls_in_audit doc
    ∧ frameworks_audited doc ≠ [] ∧ NoDup (frameworks_audited doc).

(** ** The checklist export *)

(** *** GET /api/audits/:auditId/checklist/xlsx *)

Module Sheet.

(** The content of the Evidence Link cell: a fixed text, or the template
    [`${req.protocol}://${req.get('host')}${evidence_path}`]. *)
Inductive Link :=
| LinkText (s : string)
| LinkUrl (protocol host : string) (evidence_path : JsVal).

(** One row of the worksheet, by column key. *)
Record Row := {
  controlId : JsVal;
  controlObjective : JsVal;
  question : JsVal;
  selectedOption : JsVal;
  complianceStatus : JsVal;
  justification : JsVal;
  maturityLevel : JsVal;
  aiRecommendation : JsVal;
  evidenceFilename : JsVal;
  evidenceLink : Link
}.

(** [addRow(rowData)] and [addRow({})]. *)
Inductive SheetRow :=
| DataRow (rowData : Row)
| BlankRow.

End Sheet.

(** [o?.f] *)
Definition optional {A} (f : A → JsVal) (o : option A) : JsVal :=
  match o with
  | Some x => f x
  | None => JUndefined
  end.

(** The row added when the audit has no control. *)
Definition noControlsRow : Sheet.Row :=
  {| Sheet.controlId := JStr "N/A";
     Sheet.controlObjective :=
       JStr "No controls found for the frameworks associated with this audit.";
     Sheet.question := JStr ""; Sheet.selectedOption := JStr ""; Sheet.complianceStatus := JStr "";
     Sheet.justification := JStr ""; Sheet.maturityLevel := JStr ""; Sheet.aiRecommendation := JStr "";
     Sheet.evidenceFilename := JStr ""; Sheet.evidenceLink := Sheet.LinkText "" |}.

(** The object literal of server.js 877-888, for question [q] at [qIndex] of
    [control], whose response, if any, is [response]. *)
Definition rowData (protocol host : string) (control : string * Control)
    (response : option Response) (qIndex : nat) (q : Question) : Sheet.Row :=
  let questionResponse :=
    match response ≫= question_responses with
    | Some question_responses => question_responses !! qIndex
    | None => None
    end in
  let first := bool_decide (qIndex = 0%nat) in
  {| Sheet.controlId := if first then JStr control.1 else JStr "";
     Sheet.controlObjective := if first then control_objective control.2 else JStr "";
     Sheet.question := q_question_text q;
     Sheet.selectedOption :=
       js_or (js_or (optional option_text questionResponse)
                    (optional selected_option questionResponse))
             (JStr "Not Answered");
     Sheet.complianceStatus :=
       if first then js_or (optional compliance_status response) (JStr "Not Answered")
       else JStr "";
     Sheet.justification :=
       if first then js_or (optional justification_text response) (JStr "None Provided")
       else JStr "";
     Sheet.maturityLevel :=
       if first then js_or (optional maturity_level_selected response) (JStr "N/A")
       else JStr "";
     Sheet.aiRecommendation :=
       if first then js_or (optional ai_recommendation response) (JStr "None")
       else JStr "";
     Sheet.evidenceFilename :=
       if first then js_or (optional evidence_filename response) (JStr "N/A")
       else JStr "";
     Sheet.evidenceLink :=
       if first && truthy (optional evidence_path response)
       then Sheet.LinkUrl protocol host (optional evidence_path response)
       else Sheet.LinkText "N/A" |}.

(** The rows of one control: one per question. *)
Definition controlRows (protocol host : string) (auditResponses : gmap string Response)
    (control : string * Control) : list Sheet.Row :=
  imap (rowData protocol host control (auditResponses !! control.1))
       (default [] (questionnaires control.2)).

(** The rows added for the control at [index] of the [count] sorted
    controls: its question rows, then a blank row when it has a question and
    is not the last control. *)
Definition controlBlock (protocol host : string) (auditResponses : gmap string Response)
    (count index : nat) (control : string * Control) : list Sheet.SheetRow :=
  (Sheet.DataRow <$> controlRows protocol host auditResponses control)
  ++ (if bool_decide (0 < numQuestions control.2 ∧ (index < count - 1)%nat)
      then [Sheet.BlankRow] else []).

(** The rows added below the header (server.js 855-896).  [auditResponses]
    is the object keyed by response id; control ids are taken not to name a
    property that every object inherits. *)
Definition checklistRows (protocol host : string) (auditResponses : gmap string Response)
    (controlsForExcel : list (string * Control)) : list Sheet.SheetRow :=
  (if decide (length controlsForExcel = 0%nat) then [Sheet.DataRow noControlsRow] else [])
  ++ mjoin (imap (controlBlock protocol host auditResponses (length controlsForExcel))
                 controlsForExcel).

(** The characters that the name of a worksheet may not hold. *)
Definition sheet_name_forbidden : list ascii :=
  ["*"; "?"; ":"; "\"; "/"; "["; "]"]%char.

(** Whether [addWorksheet(`Audit Checklist - ${title}`)] takes the name.  The
    fixed part holds no forbidden character, and neither does the text of a
    title that is not a string. *)
Definition sheet_name_accepted (title : JsVal) : bool :=
  match title with
  | JStr s => forallb (λ a, negb (string_has a s)) sheet_name_forbidden
  | _ => true
  end.

Section checklist.
(** [l.sort((a, b) => a.id.localeCompare(b.id))]: the order is that of the
    runtime's collation. *)
Context (sortById : list (string * Control) → list (string * Control)).

(** The reply lists the rows handed to the worksheet; styling and writing
    the workbook are the renderer's.  [doc(auditId).get()] of line 783 fails
    for a string that names no document, and [addWorksheet] of line 820
    throws for a name that it does not accept; the handler reports both as a
    server error. *)
Definition getChecklist (st : Store) (protocol host auditId : string)
    : Outcome (list Sheet.SheetRow) :=
  if negb (valid_document_id auditId) then
    {| reply := ServerError; store := st; in_queries := [] |}
  else
  match audits st !! auditId with
  | None => {| reply := NotFound; store := st; in_queries := [] |}
  | Some auditData =>
      match fetchControls st (frameworks_audited auditData) with
      | (None, log) => {| reply := ServerError; store := st; in_queries := log |}
      | (Some allControlsForAudit, log) =>
          let auditResponses := responses_of st auditId in
          if negb (sheet_name_accepted (title auditData)) then
            {| reply := ServerError; store := st; in_queries := log |}
          else
            let controlsForExcel := sortById allControlsForAudit in
            {| reply := Ok (checklistRows protocol host auditResponses controlsForExcel);
               store := st; in_queries := log |}
      end
  end.
End checklist.

(** The rows of a sheet that are not blank. *)
Definition data_rows (rows : list Sheet.SheetRow) : list Sheet.Row :=
  omap (λ row, match row with Sheet.DataRow d => Some d | Sheet.BlankRow => None end) rows.

(** An ordering of controls by the bytes of their ids. *)
Definition sortByIdBytes : list (string * Control) → list (string * Control) :=
  merge_sort (λ a b, String.leb a.1 b.1).

(** A path of two segments, each a non-empty string without slash. *)
Definition two_segments (path : string) : Prop :=
  ∃ a b, path = a +:+ "/" +:+ b ∧ doc_accepts a = true ∧ doc_accepts b = true.

(** * Properties *)

(** ** The double-precision percentage *)

(** *** Binary digits *)



(** *** Shifting right *)




(** *** Scaling inequalities *)



(** *** Rounding to nearest, ties to even *)







(** *** Integers as numbers *)



(** *** Division *)


Lemma loc_of_shr_record_of_loc (m : Z) (l : location) :
  loc_of_shr_record (shr_record_of_loc m l) = l ∧ shr_m (shr_record_of_loc m l) = m.
Proof. by destruct l as [|[]]. Qed.



(** *** Multiplication by 100 *)


(** *** The percentage *)



(** *** The rounded percentage *)




Lemma overallProgress_none_complete (total : Z) : overallProgress 0 total = 0.
Proof.
  unfold overallProgress, percentage. destruct (total =? 0); [done|].
  change (Number_of_Z 0) with (S754_zero false).
  by destruct (Number_of_Z total) as [[]| []| |[] ? ?].
Qed.



(** ** The percentage on every audit of at most 200 controls *)

(** The binary64 computation evaluated on every pair
    [0 <= completed <= total <= 200]. *)
Lemma table_ok_200 : table_ok 200 = true.
Proof. vm_compute. reflexivity. Qed.

Lemma table_ok_pair (bound completed total : Z) :
  table_ok bound = true →
  1 ≤ total ≤ bound → 0 ≤ completed ≤ total →
  pair_ok completed total = true.
Proof.
  intros Htable Htotal Hcompleted.
  unfold table_ok in Htable. rewrite forallb_forall in Htable.
  assert (column_ok total = true) as Hcolumn.
  { apply Htable, list_elem_of_In, elem_of_seqZ. lia. }
  unfold column_ok in Hcolumn. rewrite forallb_forall in Hcolumn.
  apply Hcolumn, list_elem_of_In, elem_of_seqZ. lia.
Qed.


Lemma overallProgress_nonzero (completed total : Z) :
  total ≠ 0 → overallProgress completed total = Math_round (percentage completed total).
Proof. intros H. unfold overallProgress. by destruct (Z.eqb_spec total 0). Qed.

Lemma spec_overallProgress_nonzero (completed total : Z) :
  total ≠ 0 →
  spec_overallProgress completed total = round_half_away_from_zero (100 * completed) total.
Proof. intros H. unfold spec_overallProgress. by destruct (Z.eqb_spec total 0). Qed.

Lemma misses_spec (completed total : Z) :
  misses completed total = true ↔ (completed, total) ∈ tie_misses.
Proof.
  unfold misses. rewrite existsb_exists. split.
  - intros ([c t] & Hin & Heq). apply list_elem_of_In in Hin.
    apply andb_prop in Heq as [Hc Ht]. apply Z.eqb_eq in Hc, Ht. simpl in *. by subst.
  - intros Hin. exists (completed, total). split; [by apply list_elem_of_In|].
    simpl. by rewrite !Z.eqb_refl.
Qed.

(** The facts [pair_ok] packs, as propositions about [overallProgress]. *)
Lemma pair_ok_facts (completed total : Z) :
  1 ≤ total ≤ 200 → 0 ≤ completed ≤ total →
  let p := overallProgress completed total in
  let q := spec_overallProgress completed total in
  0 ≤ p ≤ 100
  ∧ ((completed, total) ∉ tie_misses → p = q)
  ∧ ((completed, total) ∈ tie_misses → is_tie completed total = true ∧ p = q - 1)
  ∧ (total < 200 → (p = 100 → completed = total) ∧ (p = 0 → completed = 0)).
Proof.
  intros Htotal Hcompleted p q.
  pose proof (table_ok_pair 200 completed total table_ok_200 Htotal Hcompleted) as Hok.
  subst p q. rewrite overallProgress_nonzero, spec_overallProgress_nonzero by lia.
  unfold pair_ok in Hok.
  pose proof (misses_spec completed total) as Hmiss.
  repeat (apply andb_prop in Hok as [Hok ?]).
  destruct (misses completed total), (Z.ltb_spec total 200);
    repeat match goal with
           | H : _ && _ = true |- _ => apply andb_prop in H as [? ?]
           | H : implb (_ =? _) _ = true |- _ =>
               let E := fresh in
               destruct (Z.eqb_spec _ _) as [E|E] in H; simpl in H
           end;
    repeat split; intros;
    try match goal with
        | H : _ ∉ tie_misses |- _ => exfalso; apply H, Hmiss; reflexivity
        | H : _ ∈ tie_misses |- _ => apply Hmiss in H; discriminate H
        end;
    try discriminate; try assumption; lia.
Qed.




(** Claim C5, as the code has it: on an audit of fewer than 200 controls,
    with [0 <= completedCount <= totalExpectedControls], the progress is 100
    only when every control is complete and 0 only when none is. *)
Theorem progress_boundaries_below_200 (completed total : Z) :
  0 < total → total < 200 → 0 ≤ completed ≤ total →
  (overallProgress completed total = 100 → completed = total)
  ∧ (overallProgress completed total = 0 → completed = 0).
Proof.
  intros Hpos Hbound Hcompleted.
  pose proof (pair_ok_facts completed total ltac:(lia) Hcompleted) as H.
  simpl in H. destruct H as (_ & _ & _ & H). exact (H Hbound).
Qed.

Lemma progress_boundaries_below_200_witness :
  (overallProgress 198 199 = 100 → 198 = 199)
  ∧ (overallProgress 198 199 = 0 → 198 = 0).
Proof.
  apply (progress_boundaries_below_200 198 199); lia.
Defined.

(** Claim C5 as stated fails from 200 controls on: 199 of 200 is exactly
    99.5, a tie that [Math.round] takes up to 100, and 1 of 201 is 0.4975,
    which rounds to 0. *)
Lemma progress_boundary_reached_early :
  (0 < 200 ∧ 0 ≤ 199 ≤ 200 ∧ overallProgress 199 200 = 100 ∧ 199 ≠ 200)
  ∧ (0 < 201 ∧ 0 ≤ 1 ≤ 201 ∧ overallProgress 1 201 = 0 ∧ 1 ≠ 0).
Proof. vm_compute. repeat split; discriminate. Qed.

(** ** The chunked control lookup *)

Section fetch.
Context (st : Store).

Lemma controls_where_in_accepts (ids : list string) :
  (length ids ≤ in_limit)%nat → controls_where_in st ids = Some (controls_in st ids).
Proof. intros H. unfold controls_where_in. by rewrite decide_True. Qed.

Lemma slice_chunk (i : nat) (ids : list string) :
  slice i (i + chunkSize) ids = take chunkSize (drop i ids).
Proof. unfold slice. f_equal. lia. Qed.

(** With fuel to reach the exit test, the loop issues the successive
    slices of [ids] from [i] on, every one within the limit, and every
    query is accepted. *)
Lemma fetch_loop_chunks (ids : list string) (fuel i : nat) acc log :
  (length ids ≤ i + fuel * chunkSize)%nat →
  ∃ chunks,
    fetch_loop st ids fuel i acc log
      = (Some (acc ++ mjoin (controls_in st <$> chunks)), log ++ chunks)
    ∧ Forall (λ chunk, (length chunk ≤ chunkSize)%nat) chunks
    ∧ mjoin chunks = drop i ids.
Proof.
  revert i acc log. induction fuel as [|fuel IH]; intros i acc log Hfuel; simpl.
  - exists []. simpl. rewrite !app_nil_r, drop_ge by lia. done.
  - destruct (decide (i < length ids)%nat) as [Hlt|Hge].
    + rewrite slice_chunk.
      set (chunk := take chunkSize (drop i ids)).
      assert (length chunk ≤ chunkSize)%nat as Hlen.
      { subst chunk. rewrite length_take. lia. }
      rewrite controls_where_in_accepts by exact Hlen.
      destruct (IH (i + chunkSize)%nat (acc ++ controls_in st chunk) (log ++ [chunk]))
        as (chunks & Hrun & Hall & Hjoin); [lia|].
      exists (chunk :: chunks). rewrite Hrun. simpl.
      rewrite <- !app_assoc. split; [done|]. split; [by constructor|].
      rewrite Hjoin. subst chunk.
      rewrite <- drop_drop. apply take_drop.
    + exists []. simpl. rewrite !app_nil_r, drop_ge by lia. done.
Qed.

Lemma fetchControls_chunks (ids : list string) :
  ∃ chunks,
    fetchControls st ids = (Some (mjoin (controls_in st <$> chunks)), chunks)
    ∧ Forall (λ chunk, (length chunk ≤ chunkSize)%nat) chunks
    ∧ mjoin chunks = ids.
Proof.
  destruct (fetch_loop_chunks ids (length ids) 0 [] []) as (chunks & H & ? & ?).
  { unfold chunkSize. lia. }
  exists chunks. by rewrite drop_0 in *.
Qed.

(** The lookup finds exactly the controls of the given frameworks. *)
Lemma fetchControls_elem_of (ids : list string) :
  ∃ found log,
    fetchControls st ids = (Some found, log)
    ∧ ∀ id c, (id, c) ∈ found ↔ controls st !! id = Some c ∧ framework_id c ∈ ids.
Proof.
  destruct (fetchControls_chunks ids) as (chunks & Hrun & _ & Hjoin).
  eexists _, _. split; [exact Hrun|]. intros id c.
  rewrite list_elem_of_join. setoid_rewrite list_elem_of_fmap. split.
  - intros (docs & Hin & chunk & -> & Hchunk).
    apply list_elem_of_filter in Hin as [Hfw Hdoc]. simpl in Hfw.
    apply elem_of_map_to_list in Hdoc. split; [done|].
    rewrite <- Hjoin. apply list_elem_of_join. eauto.
  - intros [Hdoc Hfw]. rewrite <- Hjoin in Hfw.
    apply list_elem_of_join in Hfw as (chunk & Hfw & Hchunk).
    exists (controls_in st chunk). split; [|eauto].
    apply list_elem_of_filter. split; [done|]. by apply elem_of_map_to_list.
Qed.
End fetch.

(** The lookup reads nothing but the [controls] collection. *)
Lemma fetch_loop_controls (st st' : Store) ids fuel i acc log :
  controls st' = controls st →
  fetch_loop st' ids fuel i acc log = fetch_loop st ids fuel i acc log.
Proof.
  intros Hc. revert i acc log. induction fuel as [|fuel IH]; intros i acc log; simpl; [done|].
  unfold controls_where_in, controls_in. rewrite Hc.
  destruct (decide (i < length ids)%nat); [|done].
  destruct (decide _); [apply IH|done].
Qed.

Lemma fetchControls_controls (st st' : Store) ids :
  controls st' = controls st → fetchControls st' ids = fetchControls st ids.
Proof. apply fetch_loop_controls. Qed.

(** Every audit handler issues its membership queries through the chunk
    loop, so none of them carries more than ten ids. *)
Lemma audit_handlers_chunk (st : Store) (now later : Z) (auditId newId : string)
    (ab : AuditBody) (rb : ResponseBody) :
  Forall (λ q, (length q ≤ in_limit)%nat) (in_queries (createAudit st now later newId ab))
  ∧ Forall (λ q, (length q ≤ in_limit)%nat) (in_queries (getAudit st now auditId))
  ∧ Forall (λ q, (length q ≤ in_limit)%nat) (in_queries (putResponse st now later auditId rb)).
Proof.
  split; [|split].
  - unfold createAudit. destruct (_ || _); [constructor|].
    destruct (decide _); [constructor|].
    destruct (fetchControls_chunks st (frameworks_where_type st (ab_domain_type ab)))
      as (chunks & -> & Hall & _).
    destruct (negb (valid_document_id newId)); [done|].
    destruct (negb (forallb _ _)); [done|]. by destruct (commit _ _).
  - unfold getAudit. destruct (negb _); [constructor|].
    destruct (audits st !! auditId) as [a|]; [|constructor].
    destruct (fetchControls_chunks st (frameworks_audited a)) as (chunks & -> & Hall & _).
    destruct (summary_differs _ _ _ _); [|done]. by destruct (commit _ _).
  - unfold putResponse. destruct (truthy _), (rb_question_responses rb); try constructor.
    destruct (rb_control_id rb); try constructor.
    destruct (negb (_ && _)); [constructor|].
    destruct (negb _); [constructor|].
    destruct (audits st !! auditId) as [a|]; [|constructor].
    destruct (negb _); [constructor|].
    destruct (fetchControls_chunks st (frameworks_audited a)) as (chunks & -> & Hall & _).
    by destruct (commit _ _).
Qed.

(** Claim C6 at the input where the code departs from it: with eleven
    frameworks of type Cloud, GET /api/frameworks/Cloud/controls issues one
    ['in'] query carrying all eleven ids, which the store rejects, while the
    audit-creation handler on the same store splits them into a query of ten
    and a query of one. *)
Theorem getFrameworkControls_unchunked :
  let o := getFrameworkControls eleven_frameworks "Cloud" in
  (∃ q, in_queries o = [q] ∧ length q = 11%nat)
  ∧ reply o = ServerError
  ∧ length <$> in_queries (createAudit eleven_frameworks 1 1 "X" (audit_request "Cloud"))
    = [10%nat; 1%nat].
Proof. vm_compute. split; [eexists; split; reflexivity|]. split; reflexivity. Qed.

(** ** Completeness of one control *)

Lemma countCompleted_from (defs : gmap string Control) docs (n : Z) :
  foldl (λ n doc,
           match Map_get defs (control_id doc.2) with
           | Some c => if isComplete c doc.2 then n + 1 else n
           | None => n
           end) n docs
  = n + Z.of_nat (length (filter (λ doc, counted defs doc) docs)).
Proof.
  revert n. induction docs as [|doc docs IH]; intros n; simpl; [lia|].
  rewrite IH, filter_cons.
  destruct (decide (counted defs doc)) as [Hc|Hc]; unfold counted in Hc;
    destruct (Map_get defs (control_id doc.2)) as [c|]; try done;
    destruct (isComplete c doc.2); try done; simpl; lia.
Qed.

Lemma countCompleted_filter (defs : gmap string Control) docs :
  countCompleted defs docs = Z.of_nat (length (filter (λ doc, counted defs doc) docs)).
Proof. unfold countCompleted. by rewrite countCompleted_from. Qed.

(** Claim C2, as the code has it.  A control [c] with response [r] is
    complete exactly when [c] has at least one question, the number of
    entries of [r.question_responses] whose [selected_option] is truthy
    (not null, undefined, false, 0 or the empty string) equals the number of
    questions, and [r.compliance_status] is one of Yes, Partial, No, Not
    Applicable.  A control without questions is never complete, whatever its
    compliance status, and the reconciler's count is the number of responses
    whose control is found and complete. *)
Theorem isComplete_characterised (c : Control) (r : Response) :
  (isComplete c r = true ↔
     0 < numQuestions c
     ∧ (∃ qrs, question_responses r = Some qrs
               ∧ Z.of_nat (length (filter (λ qr, truthy (selected_option qr)) qrs))
                 = numQuestions c)
     ∧ compliance_status r ∈ terminal_statuses)
  ∧ (numQuestions c = 0 → isComplete c r = false)
  ∧ (∀ defs docs,
       countCompleted defs docs
       = Z.of_nat (length (filter (λ doc, counted defs doc) docs))).
Proof.
  split; [|split].
  - unfold isComplete, allQuestionsAnswered, overallStatusSet, answeredCount.
    rewrite !andb_true_iff, Z.ltb_lt, bool_decide_eq_true.
    destruct (question_responses r) as [qrs|].
    + rewrite Z.eqb_eq. split.
      * intros [[? ?] ?]. eauto.
      * intros (? & (qrs' & [= <-] & ?) & ?). done.
    + split; [intros [[_ [=]] _]|intros (_ & (? & [=] & _) & _)].
  - intros H0. unfold isComplete, allQuestionsAnswered. rewrite H0. done.
  - apply countCompleted_filter.
Qed.

Lemma isComplete_characterised_witness :
  isComplete (control_in "F1" []) no_response = false.
Proof.
  apply (isComplete_characterised (control_in "F1" []) no_response). reflexivity.
Defined.

(** Claim C2 as stated fails: the empty string is a [selected_option] that
    is not null, so the stated predicate holds of this control, but the code
    filters on truthiness and does not count it. *)
Lemma blank_selection_not_counted :
  spec_isComplete (control_in "F1" [question "q3"]) blank_answer
  ∧ isComplete (control_in "F1" [question "q3"]) blank_answer = false
  ∧ countCompleted {[ "B" := control_in "F1" [question "q3"] ]} [("B", blank_answer)] = 0.
Proof.
  split; [|split; reflexivity].
  split; [reflexivity|]. split; [reflexivity|]. unfold terminal_statuses. set_solver.
Qed.

(** ** Reading a response that was never recorded *)



(** ** Batches *)

Lemma commit_cons (st : Store) (w : Write) (ws : list Write) :
  commit st (w :: ws) = apply_write st w ≫= λ s, commit s ws.
Proof.
  unfold commit. simpl. destruct (apply_write st w) as [s|]; simpl; [done|].
  induction ws as [|w' ws IH]; simpl; done.
Qed.

Lemma responses_of_insert (st : Store) (a c a' c' : string) (r : Response) :
  responses_of (with_responses st (<[a := <[c := r]> (responses_of st a)]> (responses st))) a'
    !! c'
  = if decide (a' = a ∧ c' = c) then Some r else responses_of st a' !! c'.
Proof.
  unfold responses_of at 1. simpl.
  destruct (decide (a' = a)) as [->|Ha].
  - rewrite lookup_insert_eq. simpl.
    destruct (decide (c' = c)) as [->|Hc].
    + rewrite lookup_insert_eq, decide_True; done.
    + rewrite lookup_insert_ne by done. by rewrite decide_False by (by intros [_ ?]).
  - rewrite lookup_insert_ne by done. by rewrite decide_False by (by intros [? _]).
Qed.

Lemma responses_of_with_audits (st : Store) (m : gmap string Audit) (a : string) :
  responses_of (with_audits st m) a = responses_of st a.
Proof. reflexivity. Qed.

(** What a response upsert that answers 200 has done. *)
Lemma putResponse_Ok (st : Store) (now later : Z) (auditId : string) (body : ResponseBody)
    (result : Z * string) :
  reply (putResponse st now later auditId body) = Ok result →
  ∃ cid qrs a found log,
    rb_control_id body = JStr cid
    ∧ rb_question_responses body = Some qrs
    ∧ audits st !! auditId = Some a
    ∧ fetchControls st (frameworks_audited a) = (Some found, log)
    ∧ let count := countCompleted (Map_of found) (map_to_list (responses_of st auditId)) in
      let p := overallProgress count (total_controls_in_audit a) in
      result = (p, overallStatus p)
      ∧ store (putResponse st now later auditId body)
        = upserted st now later auditId cid qrs body a count.
Proof.
  unfold putResponse.
  destruct (truthy (rb_control_id body)), (rb_question_responses body) as [qrs|]; try done.
  destruct (rb_control_id body) as [| | | |cid]; try done.
  destruct (doc_accepts auditId && doc_accepts cid); [|done].
  destruct (store_accepts auditId); [|done]. simpl.
  destruct (audits st !! auditId) as [a|] eqn:Ha; [|done].
  destruct (store_accepts cid); [|done]. simpl.
  destruct (fetchControls st (frameworks_audited a)) as [[found|] log] eqn:Hfetch; [|done].
  unfold commit. simpl. rewrite Ha. simpl.
  intros [= <-]. exists cid, qrs, a, found, log. done.
Qed.

(** It was asked for ids that name documents. *)
Lemma putResponse_Ok_ids (st : Store) (now later : Z) (auditId : string) (body : ResponseBody)
    (result : Z * string) (cid : string) :
  reply (putResponse st now later auditId body) = Ok result →
  rb_control_id body = JStr cid →
  valid_document_id auditId = true ∧ valid_document_id cid = true.
Proof.
  unfold putResponse, valid_document_id. intros Hok Hcid. rewrite Hcid in Hok.
  destruct (truthy (JStr cid)), (rb_question_responses body) as [qrs|]; try done.
  destruct (doc_accepts auditId), (doc_accepts cid); try done.
  destruct (store_accepts auditId); [|done]. simpl in Hok.
  destruct (audits st !! auditId) as [a|]; [|done].
  by destruct (store_accepts cid).
Qed.

(** A response upsert that does not answer 200 leaves the store as it was. *)
Lemma putResponse_not_Ok (st : Store) (now later : Z) (auditId : string)
    (body : ResponseBody) :
  (∀ result, reply (putResponse st now later auditId body) ≠ Ok result) →
  store (putResponse st now later auditId body) = st.
Proof.
  unfold putResponse.
  destruct (truthy (rb_control_id body)), (rb_question_responses body) as [qrs|]; try done.
  destruct (rb_control_id body) as [| | | |cid]; try done.
  destruct (doc_accepts auditId && doc_accepts cid); [|done].
  destruct (store_accepts auditId); [|done]. simpl.
  destruct (audits st !! auditId) as [a|] eqn:Ha; [|done].
  destruct (store_accepts cid); [|done]. simpl.
  destruct (fetchControls st (frameworks_audited a)) as [[found|] log] eqn:Hfetch; [|done].
  unfold commit. simpl. rewrite Ha. simpl. intros H. by destruct (H _ eq_refl).
Qed.

(** ** Upsert semantics *)

(** A response upsert that succeeds writes every field of the stored
    response: each of [justification_text], [maturity_level_selected],
    [evidence_path], [evidence_filename] and [ai_recommendation] becomes the
    supplied value when that is truthy and null otherwise, so that a field
    supplied as null and a field not supplied are both written as null;
    [compliance_status] becomes the supplied value when truthy and 'Not
    Answered' otherwise. *)
Lemma putResponse_writes_every_field (st : Store) (now later : Z) (auditId : string)
    (body : ResponseBody) (result : Z * string) :
  reply (putResponse st now later auditId body) = Ok result →
  ∃ cid r,
    rb_control_id body = JStr cid
    ∧ responses_of (store (putResponse st now later auditId body)) auditId !! cid = Some r
    ∧ compliance_status r = js_or (rb_compliance_status body) (JStr "Not Answered")
    ∧ justification_text r = js_or (rb_justification_text body) JNull
    ∧ maturity_level_selected r = js_or (rb_maturity_level_selected body) JNull
    ∧ evidence_path r = js_or (rb_evidence_path body) JNull
    ∧ evidence_filename r = js_or (rb_evidence_filename body) JNull
    ∧ ai_recommendation r = js_or (rb_ai_recommendation body) JNull
    ∧ (∀ v, v = JNull ∨ v = JUndefined → js_or v JNull = JNull).
Proof.
  intros Hok.
  destruct (putResponse_Ok _ _ _ _ _ _ Hok)
    as (cid & qrs & a & found & log & Hcid & _ & _ & _ & _ & ->).
  eexists cid, _. split; [exact Hcid|]. split.
  - unfold upserted. simpl.
    rewrite responses_of_with_audits, responses_of_insert. by rewrite decide_True.
  - repeat split. intros v [->| ->]; reflexivity.
Qed.

(** Claim C7 at the input where the code departs from it: the write is a
    [set] with [merge: true] whose data names every field, an absent one as
    [x || null].  A justification stored by one upsert is therefore replaced
    by null when the next upsert for the control does not supply the field,
    where partial-update semantics would leave it untouched. *)
Theorem unsupplied_field_is_cleared :
  let st2 := store (putResponse audited 2 2 "X" (justified answers_A (JStr "kept"))) in
  let st3 := store (putResponse st2 3 3 "X" answers_A) in
  justification_text <$> responses_of st2 "X" !! "A" = Some (JStr "kept")
  ∧ rb_justification_text answers_A = JUndefined
  ∧ reply (putResponse st2 3 3 "X" answers_A) = Ok (50, "In Progress")
  ∧ justification_text <$> responses_of st3 "X" !! "A" = Some JNull.
Proof. vm_compute. repeat split. Qed.

(** ** An upsert for an audit that does not exist *)



(** ** The responses of an audit *)

(** The batch of audit creation always commits; it touches only the
    responses of the new audit, where it stores one placeholder under the id
    of each control found. *)
Lemma commit_initial_batch (auditId : string) (found : list (string * Control)) (st : Store) :
  ∃ st',
    commit st (initial_batch auditId found) = Some st'
    ∧ controls st' = controls st ∧ audits st' = audits st
    ∧ (∀ a, a ≠ auditId → responses_of st' a = responses_of st a)
    ∧ (∀ cid, is_Some (responses_of st' auditId !! cid)
              ↔ is_Some (responses_of st auditId !! cid) ∨ cid ∈ found.*1)
    ∧ (∀ cid r, responses_of st' auditId !! cid = Some r →
                responses_of st auditId !! cid = Some r
                ∨ ∃ c, (cid, c) ∈ found ∧ r = placeholder cid c).
Proof.
  revert st. induction found as [|[id c] found IH]; intros st.
  - exists st. repeat split; try done.
    + intros H. by left.
    + intros [H|H]; [done|]. by apply elem_of_nil in H.
    + by left.
  - unfold initial_batch. simpl map. rewrite commit_cons. simpl.
    set (st1 := with_responses st _).
    destruct (IH st1) as (st' & Hcommit & Hcontrols & Haudits & Hother & Hdom & Hval).
    exists st'. split; [exact Hcommit|]. split; [done|]. split; [done|].
    assert (∀ a c', responses_of st1 a !! c'
                    = if decide (a = auditId ∧ c' = id)
                      then Some (placeholder id c) else responses_of st a !! c') as Hst1.
    { intros a c'. subst st1. apply responses_of_insert. }
    split; [|split].
    + intros a Ha. rewrite Hother by done. apply map_eq. intros c'.
      rewrite Hst1. by rewrite decide_False by (by intros [? _]).
    + intros cid. rewrite Hdom, Hst1. simpl. rewrite elem_of_cons.
      destruct (decide (auditId = auditId ∧ cid = id)) as [[_ ->]|Hne].
      * split; [by right; left|]. intros _. left. by eexists.
      * assert (cid ≠ id) by (intros ->; by apply Hne). tauto.
    + intros cid r Hr. apply Hval in Hr as [Hr|(c' & Hin & ->)].
      * rewrite Hst1 in Hr.
        destruct (decide (auditId = auditId ∧ cid = id)) as [[_ ->]|Hne].
        -- injection Hr as <-. right. exists c. split; [left|done].
        -- by left.
      * right. exists c'. split; [by right|done].
Qed.


(** It was given an id that names a document, over controls whose
    placeholders can be staged. *)
Lemma createAudit_Created_valid (st : Store) (now later : Z) (newId : string)
    (body : AuditBody) (result : string * Audit) (found : list (string * Control))
    (log : list (list string)) :
  reply (createAudit st now later newId body) = Created result →
  fetchControls st (frameworks_where_type st (ab_domain_type body)) = (Some found, log) →
  valid_document_id newId = true ∧ forallb stageable found = true.
Proof.
  unfold createAudit. destruct (_ || _); [done|].
  destruct (decide _); [done|]. intros Hcreated Hfetch. rewrite Hfetch in Hcreated.
  destruct (valid_document_id newId); [|done].
  by destruct (forallb stageable found).
Qed.



Lemma createAudit_catalogue :
  reply (createAudit catalogue 1 1 "X" (audit_request "Cloud")) = Created ("X", audit_X).
Proof. vm_compute. reflexivity. Qed.



(** ** Reconciliation on read and on write *)

Lemma summary_differs_false (a : Audit) (p : Z) (s : string) (c : Z) :
  summary_differs a p s c = false ↔ summary_of a = (p, s, c).
Proof.
  unfold summary_differs, summary_of.
  rewrite !orb_false_iff, !negb_false_iff, !Z.eqb_eq, String.eqb_eq.
  split; [intros [[-> ->] ->]; done | intros [= -> -> ->]; done].
Qed.

(** What reading an existing audit does. *)
Lemma getAudit_found (st : Store) (now : Z) (auditId : string) (a : Audit) :
  valid_document_id auditId = true →
  audits st !! auditId = Some a →
  ∃ p s c,
    computed_on_read st auditId a = Some (p, s, c)
    ∧ if summary_differs a p s c
      then store (getAudit st now auditId)
           = with_audits st (<[auditId := update_summary a p s c now]> (audits st))
           ∧ reply_summary (reply (getAudit st now auditId)) = Some (p, s, c)
      else store (getAudit st now auditId) = st
           ∧ reply_summary (reply (getAudit st now auditId)) = Some (summary_of a).
Proof.
  intros Hvalid Ha. unfold getAudit, computed_on_read. rewrite Hvalid, Ha. simpl.
  destruct (fetchControls_chunks st (frameworks_audited a)) as (chunks & -> & _).
  eexists _, _, _. split; [reflexivity|].
  destruct (summary_differs _ _ _ _); [|done].
  unfold commit. simpl. rewrite Ha. done.
Qed.

Lemma computed_on_read_with_audits (st : Store) (m : gmap string Audit) (auditId : string)
    (a a' : Audit) :
  frameworks_audited a' = frameworks_audited a →
  computed_on_read (with_audits st m) auditId a' = computed_on_read st auditId a.
Proof.
  intros Hfw. unfold computed_on_read.
  rewrite Hfw, (fetchControls_controls st (with_audits st m)) by done. done.
Qed.

(** Claim C1, as the code has it.  Reading an audit whose stored summary
    equals the freshly computed one writes nothing; hence reading an audit
    twice in a row leaves the store after the second read as it was after
    the first, [updated_at] included, and both reads report the same
    summary.  A response upsert that succeeds always rewrites the summary
    and sets [updated_at], in the batch that stores the response. *)
Theorem getAudit_reconciles_once (st : Store) (now now' : Z) (auditId : string) :
  (∀ a, audits st !! auditId = Some a →
        computed_on_read st auditId a = Some (summary_of a) →
        store (getAudit st now auditId) = st)
  ∧ (let o1 := getAudit st now auditId in
     let o2 := getAudit (store o1) now' auditId in
     store o2 = store o1 ∧ reply_summary (reply o2) = reply_summary (reply o1))
  ∧ (∀ later body result,
       reply (putResponse st now later auditId body) = Ok result →
       ∃ a', audits (store (putResponse st now later auditId body)) !! auditId = Some a'
             ∧ updated_at a' = later
             ∧ overall_score a' = result.1 ∧ overall_status a' = result.2
             ∧ ∃ a count, audits st !! auditId = Some a
                          ∧ a' = update_summary a result.1 result.2 count later).
Proof.
  assert (valid_document_id auditId = false →
          ∀ st' t, getAudit st' t auditId
                   = {| reply := ServerError; store := st'; in_queries := [] |}) as Hrefused.
  { intros Hvalid st' t. unfold getAudit. by rewrite Hvalid. }
  split; [|split].
  - intros a Ha Hsame.
    destruct (valid_document_id auditId) eqn:Hvalid; [|by rewrite Hrefused].
    destruct (getAudit_found st now auditId a Hvalid Ha) as (p & s & c & Hcomp & Hrun).
    assert (summary_of a = (p, s, c)) as Heq by congruence.
    apply summary_differs_false in Heq. rewrite Heq in Hrun. tauto.
  - simpl. destruct (valid_document_id auditId) eqn:Hvalid; [|by rewrite !Hrefused].
    destruct (audits st !! auditId) as [a|] eqn:Ha.
    + destruct (getAudit_found st now auditId a Hvalid Ha) as (p & s & c & Hcomp & Hrun).
      destruct (summary_differs a p s c) eqn:Hdiff.
      * destruct Hrun as [-> ->].
        set (a' := update_summary a p s c now).
        set (st' := with_audits st _).
        assert (audits st' !! auditId = Some a') as Ha' by apply lookup_insert_eq.
        destruct (getAudit_found st' now' auditId a' Hvalid Ha')
          as (p' & s' & c' & Hcomp' & Hrun').
        subst st'. rewrite (computed_on_read_with_audits st _ auditId a a') in Hcomp' by done.
        rewrite Hcomp in Hcomp'. injection Hcomp' as <- <- <-.
        rewrite (proj2 (summary_differs_false a' p s c) eq_refl) in Hrun'.
        exact Hrun'.
      * destruct Hrun as [-> ->].
        destruct (getAudit_found st now' auditId a Hvalid Ha)
          as (p' & s' & c' & Hcomp' & Hrun').
        rewrite Hcomp in Hcomp'. injection Hcomp' as <- <- <-.
        rewrite Hdiff in Hrun'. done.
    + unfold getAudit. rewrite Hvalid, Ha. simpl. rewrite Ha. done.
  - intros later body result Hok.
    destruct (putResponse_Ok _ _ _ _ _ _ Hok)
      as (cid & qrs & a & found & log & _ & _ & Ha & _ & -> & ->).
    eexists. split; [apply lookup_insert_eq|]. repeat split.
    by eexists _, _.
Qed.

Lemma getAudit_reconciles_once_witness :
  store (getAudit audited 5 "X") = audited.
Proof.
  destruct (getAudit_reconciles_once audited 5 5 "X") as (Hquiet & _).
  apply (Hquiet audit_X); vm_compute; reflexivity.
Defined.

(** Claim C1 as stated fails on the write path: an upsert that leaves the
    freshly computed summary equal to the stored one still writes the audit
    document, whose [updated_at] moves from 1 to 2. *)
Lemma upsert_rewrites_matching_summary :
  let o := putResponse audited 2 2 "X" (response_request (JStr "A") (Some []) JUndefined) in
  summary_of <$> audits audited !! "X" = Some (0, "Not Started", 0)
  ∧ reply o = Ok (0, "Not Started")
  ∧ summary_of <$> audits (store o) !! "X" = Some (0, "Not Started", 0)
  ∧ updated_at <$> audits audited !! "X" = Some 1
  ∧ updated_at <$> audits (store o) !! "X" = Some 2.
Proof. vm_compute. repeat split. Qed.

(** ** The denominator of the progress *)

(** Claim C3 at the input where the code departs from it: the audit was
    created with two controls and both are complete, but the catalogue now
    holds three for its framework.  Reading the audit divides by the three
    controls found and reports 67, In Progress; the snapshot would give 100,
    and an upsert on the same store, which does divide by the snapshot,
    reports 100, Completed. *)
Theorem getAudit_divides_by_controls_found :
  total_controls_in_audit <$> audits grown !! "X" = Some 2
  ∧ reply_summary (reply (getAudit grown 5 "X")) = Some (67, "In Progress", 2)
  ∧ overallProgress 2 2 = 100
  ∧ reply (putResponse grown 5 5 "X" answers_A) = Ok (100, "Completed").
Proof. vm_compute. repeat split. Qed.

(** * Further properties *)

(** ** The chunk loop *)

Lemma fetch_loop_no_empty_query (st : Store) (ids : list string) (fuel i : nat) acc log :
  Forall (λ q : list string, q ≠ []) log →
  Forall (λ q : list string, q ≠ []) (fetch_loop st ids fuel i acc log).2.
Proof.
  revert i acc log. induction fuel as [|fuel IH]; intros i acc log Hlog; simpl; [done|].
  destruct (decide (i < length ids)%nat) as [Hlt|]; [|done].
  assert (slice i (i + chunkSize) ids ≠ []) as Hne.
  { rewrite slice_chunk. intros Hnil. apply (f_equal length) in Hnil.
    rewrite length_take, length_drop in Hnil. unfold chunkSize in Hnil.
    change (length (@nil string)) with 0%nat in Hnil. lia. }
  assert (Forall (λ q : list string, q ≠ []) (log ++ [slice i (i + chunkSize) ids])) as Hlog'.
  { apply Forall_app. split; [done|]. by constructor. }
  destruct (controls_where_in st _); [by apply IH|done].
Qed.

Lemma controls_in_NoDup (st : Store) (ids : list string) : NoDup (controls_in st ids).*1.
Proof.
  eapply sublist_NoDup; [apply (NoDup_fst_map_to_list (controls st))|].
  apply fmap_sublist, sublist_filter.
Qed.

Lemma controls_in_elem_of (st : Store) (ids : list string) id c :
  (id, c) ∈ controls_in st ids ↔ controls st !! id = Some c ∧ framework_id c ∈ ids.
Proof.
  unfold controls_in. rewrite list_elem_of_filter, elem_of_map_to_list. simpl. tauto.
Qed.

(** Queries over disjoint id lists return disjoint controls. *)
Lemma controls_in_chunks_NoDup (st : Store) (chunks : list (list string)) :
  NoDup (mjoin chunks) → NoDup (mjoin (controls_in st <$> chunks)).*1.
Proof.
  induction chunks as [|chunk chunks IH]; simpl; [constructor|].
  intros (Hchunk & Hdisj & Hrest)%NoDup_app.
  rewrite fmap_app. apply NoDup_app. split; [apply controls_in_NoDup|]. split; [|by apply IH].
  intros id ([id1 c1] & -> & Hin1)%list_elem_of_fmap ([id2 c2] & Heq & Hin2)%list_elem_of_fmap.
  simpl in Heq. subst id2.
  apply controls_in_elem_of in Hin1 as [Hc1 Hfw1].
  apply list_elem_of_join in Hin2 as (docs & Hin2 & (chunk' & -> & Hchunk')%list_elem_of_fmap).
  apply controls_in_elem_of in Hin2 as [Hc2 Hfw2].
  assert (c2 = c1) as -> by congruence.
  apply (Hdisj _ Hfw1). apply list_elem_of_join. eauto.
Qed.

Lemma fetchControls_NoDup (st : Store) (ids : list string) found log :
  NoDup ids → fetchControls st ids = (Some found, log) → NoDup found.*1.
Proof.
  intros Hnodup Hrun.
  destruct (fetchControls_chunks st ids) as (chunks & Hrun' & _ & Hjoin).
  rewrite Hrun in Hrun'. injection Hrun' as -> ->.
  apply controls_in_chunks_NoDup. by rewrite Hjoin.
Qed.

(** X1.  The chunked lookup of the audit handlers, on any list of framework
    ids: every query is accepted by the store, carries between one and ten
    ids, the queried lists put end to end are the given list, and the
    controls returned are exactly those whose framework is in the list, each
    once when the list has no repetition. *)
Theorem fetchControls_complete (st : Store) (ids : list string) :
  ∃ found chunks,
    fetchControls st ids = (Some found, chunks)
    ∧ mjoin chunks = ids
    ∧ Forall (λ q, (1 ≤ length q ≤ in_limit)%nat) chunks
    ∧ (∀ id c, (id, c) ∈ found ↔ controls st !! id = Some c ∧ framework_id c ∈ ids)
    ∧ (NoDup ids → NoDup found.*1).
Proof.
  destruct (fetchControls_chunks st ids) as (chunks & Hrun & Hall & Hjoin).
  destruct (fetchControls_elem_of st ids) as (found & log & Hrun' & Hfound).
  rewrite Hrun in Hrun'. injection Hrun' as <- <-.
  eexists _, chunks. split; [exact Hrun|]. split; [exact Hjoin|]. split; [|split; [exact Hfound|]].
  - pose proof (fetch_loop_no_empty_query st ids (length ids) 0 [] [] ltac:(constructor)) as Hne.
    fold (fetchControls st ids) in Hne. rewrite Hrun in Hne. simpl in Hne.
    rewrite Forall_forall in Hall, Hne. apply Forall_forall. intros q Hq.
    specialize (Hall q Hq). specialize (Hne q Hq). simpl in Hall.
    destruct q; [done|]. unfold in_limit, chunkSize in *. simpl in *. lia.
  - intros Hnodup. by eapply fetchControls_NoDup.
Qed.

Lemma fetchControls_complete_witness :
  ∃ found chunks,
    fetchControls eleven_frameworks
      ["F01"; "F02"; "F03"; "F04"; "F05"; "F06"; "F07"; "F08"; "F09"; "F10"; "F11"]
    = (Some found, chunks)
    ∧ length chunks = 2%nat ∧ NoDup found.*1.
Proof.
  destruct (fetchControls_complete eleven_frameworks
              ["F01"; "F02"; "F03"; "F04"; "F05"; "F06"; "F07"; "F08"; "F09"; "F10"; "F11"])
    as (found & chunks & Hrun & Hjoin & _ & _ & Hnodup).
  exists found, chunks. split; [exact Hrun|]. split.
  - vm_compute in Hrun. by injection Hrun as <- <-.
  - apply Hnodup. apply (bool_decide_unpack _). vm_compute. exact I.
Defined.

(** ** Counting *)

Lemma counted_filter_length (defs : gmap string Control) (docs docs' : list (string * Response)) :
  docs ≡ₚ docs' →
  length (filter (λ doc, counted defs doc) docs)
  = length (filter (λ doc, counted defs doc) docs').
Proof. intros Hperm. by rewrite Hperm. Qed.

(** X2.  The count of complete controls does not depend on the order in
    which the store lists the responses; it adds up over a split of the
    list, and it lies between 0 and the number of responses. *)
Theorem countCompleted_order (defs : gmap string Control)
    (docs docs' : list (string * Response)) :
  (docs ≡ₚ docs' → countCompleted defs docs = countCompleted defs docs')
  ∧ countCompleted defs (docs ++ docs') = countCompleted defs docs + countCompleted defs docs'
  ∧ 0 ≤ countCompleted defs docs ≤ Z.of_nat (length docs).
Proof.
  rewrite !countCompleted_filter. split; [|split].
  - intros Hperm. f_equal. by apply counted_filter_length.
  - rewrite filter_app, length_app. lia.
  - pose proof (length_filter (λ doc, counted defs doc) docs). lia.
Qed.

Lemma countCompleted_order_witness :
  countCompleted (controls catalogue)
    [("A", blank_answer); ("B", placeholder "B" (control_in "F1" [question "q3"]))]
  = countCompleted (controls catalogue)
      [("B", placeholder "B" (control_in "F1" [question "q3"])); ("A", blank_answer)].
Proof.
  destruct (countCompleted_order (controls catalogue)
              [("A", blank_answer); ("B", placeholder "B" (control_in "F1" [question "q3"]))]
              [("B", placeholder "B" (control_in "F1" [question "q3"])); ("A", blank_answer)])
    as (Hperm & _).
  apply Hperm, Permutation_swap.
Defined.

(** ** Audit creation *)

Lemma required_fields_guard (body : AuditBody) :
  negb (truthy (ab_title body)) || negb (truthy (ab_domain_type body))
  || negb (truthy (ab_userId body)) || negb (truthy (ab_client_company_name body))
  = negb (required_fields body).
Proof.
  unfold required_fields.
  by destruct (truthy (ab_title body)), (truthy (ab_domain_type body)),
    (truthy (ab_userId body)), (truthy (ab_client_company_name body)).
Qed.

Lemma apply_write_frameworks (st st' : Store) (w : Write) :
  apply_write st w = Some st' → frameworks st' = frameworks st.
Proof.
  destruct w; simpl; [by intros [= <-]| |by intros [= <-]].
  destruct (audits st !! auditId); [by intros [= <-]|done].
Qed.

Lemma commit_frameworks (batch : list Write) (st st' : Store) :
  commit st batch = Some st' → frameworks st' = frameworks st.
Proof.
  revert st. induction batch as [|w batch IH]; intros st.
  - by intros [= <-].
  - rewrite commit_cons. destruct (apply_write st w) as [st1|] eqn:Hw; [|done]. simpl.
    intros Hrest. rewrite (IH _ Hrest). by eapply apply_write_frameworks.
Qed.

(** The ways audit creation ends. *)
Lemma createAudit_cases (st : Store) (now later : Z) (newId : string) (body : AuditBody) :
  let ids := frameworks_where_type st (ab_domain_type body) in
  let o := createAudit st now later newId body in
  (required_fields body = false ∧ reply o = BadRequest ∧ store o = st ∧ in_queries o = [])
  ∨ (required_fields body = true ∧ ids = []
     ∧ reply o = NotFound ∧ store o = st ∧ in_queries o = [])
  ∨ (required_fields body = true ∧ ids ≠ []
     ∧ ∃ found log,
         fetchControls st ids = (Some found, log)
         ∧ let doc := newAudit body ids (Z.of_nat (length found)) now later in
           let st1 := with_audits st (<[newId := doc]> (audits st)) in
           (valid_document_id newId = false ∧ reply o = ServerError ∧ store o = st)
           ∨ (valid_document_id newId = true ∧ forallb stageable found = false
              ∧ reply o = ServerError ∧ store o = st1)
           ∨ (valid_document_id newId = true ∧ forallb stageable found = true
              ∧ reply o = Created (newId, doc)
              ∧ commit st1 (initial_batch newId found) = Some (store o))).
Proof.
  intros ids o. subst o. unfold createAudit. rewrite required_fields_guard.
  destruct (required_fields body); simpl; [|by left].
  fold ids. destruct (decide (length ids = 0%nat)) as [Hnil|Hne].
  { right. left. by destruct ids. }
  right. right. split; [done|]. split; [by destruct ids|].
  destruct (fetchControls_chunks st ids) as (chunks & -> & _).
  eexists _, _. split; [reflexivity|]. cbv zeta.
  destruct (valid_document_id newId); simpl; [|by left].
  right. destruct (forallb stageable _); simpl; [|by left].
  right.
  fold (initial_batch newId (mjoin (controls_in st <$> chunks))).
  destruct (commit_initial_batch newId (mjoin (controls_in st <$> chunks))
              (with_audits st
                 (<[newId := newAudit body ids
                               (Z.of_nat (length (mjoin (controls_in st <$> chunks))))
                               now later]>
                    (audits st)))) as (st' & Hcommit & _).
  rewrite Hcommit. done.
Qed.

(** X3.  Audit creation answers 400 exactly when one of title, domain type,
    user id and client company name is missing or empty, and 404 exactly
    when they are given and no framework has the domain type; in both cases
    it writes nothing and queries no control.  Otherwise it looks up the
    controls of the frameworks.  When a question of one of them has no
    [question_text] its placeholder cannot be staged: the answer is 500 and
    the audit document, added before, stays stored under the new id while no
    response was written.  A creation that answers 201 has found a text in
    every question, and returns the document it stored. *)
Theorem createAudit_replies (st : Store) (now later : Z) (newId : string)
    (body : AuditBody) :
  let ids := frameworks_where_type st (ab_domain_type body) in
  let o := createAudit st now later newId body in
  (reply o = BadRequest ↔ required_fields body = false)
  ∧ (reply o = NotFound ↔ required_fields body = true ∧ ids = [])
  ∧ (reply o = BadRequest ∨ reply o = NotFound → store o = st ∧ in_queries o = [])
  ∧ (required_fields body = true → ids ≠ [] → valid_document_id newId = true →
     ∃ found log,
       fetchControls st ids = (Some found, log)
       ∧ let doc := newAudit body ids (Z.of_nat (length found)) now later in
         (forallb stageable found = false →
          reply o = ServerError
          ∧ store o = with_audits st (<[newId := doc]> (audits st)))
         ∧ (∀ created, reply o = Created created →
                       forallb stageable found = true ∧ created = (newId, doc))).
Proof.
  destruct (createAudit_cases st now later newId body)
    as [(Hreq & Hreply & Hstore & Hlog)
       |[(Hreq & Hids & Hreply & Hstore & Hlog)
        |(Hreq & Hids & found & log & Hfetch & Hend)]];
    simpl.
  - rewrite Hreply, Hreq. repeat split; try done; by intros [? ?].
  - rewrite Hreply, Hreq. repeat split; try done; by intros [? ?].
  - simpl in Hend. rewrite Hreq.
    assert (reply (createAudit st now later newId body) ≠ BadRequest
            ∧ reply (createAudit st now later newId body) ≠ NotFound) as [Hbad Hnone].
    { destruct Hend as [(_ & -> & _)|[(_ & _ & -> & _)|(_ & _ & -> & _)]]; done. }
    split; [split; [by intros ?|done]|].
    split; [split; [by intros ?|by intros [_ ?]]|].
    split; [by intros [?|?]|].
    intros _ _ Hvalid. exists found, log. split; [exact Hfetch|]. simpl.
    destruct Hend as [(Hno & _)|[(_ & Hstage & Hreply & Hstore)|(_ & Hstage & Hreply & _)]].
    + congruence.
    + split; [done|]. intros created. by rewrite Hreply.
    + split; [congruence|]. intros created. rewrite Hreply. by intros [= <-].
Qed.

Lemma createAudit_replies_witness :
  reply (createAudit untexted 1 1 "X" (audit_request "Cloud")) = ServerError
  ∧ is_Some (audits (store (createAudit untexted 1 1 "X" (audit_request "Cloud"))) !! "X")
  ∧ responses (store (createAudit untexted 1 1 "X" (audit_request "Cloud"))) = ∅.
Proof.
  destruct (createAudit_replies untexted 1 1 "X" (audit_request "Cloud"))
    as (_ & _ & _ & Hstaged).
  destruct Hstaged as (found & log & Hfetch & Hfail & _);
    [reflexivity | discriminate | reflexivity |].
  vm_compute in Hfetch. injection Hfetch as <- <-.
  destruct Hfail as [Hreply Hstore]; [reflexivity|].
  rewrite Hreply, Hstore. split; [reflexivity|]. split; [|reflexivity].
  eexists. apply lookup_insert_eq.
Defined.

Lemma frameworks_where_type_spec (st : Store) (t : JsVal) :
  NoDup (frameworks_where_type st t)
  ∧ ∀ f, f ∈ frameworks_where_type st t
         ↔ ∃ fw, frameworks st !! f = Some fw ∧ fw_type fw = t.
Proof.
  unfold frameworks_where_type. split.
  - eapply sublist_NoDup; [apply (NoDup_fst_map_to_list (frameworks st))|].
    apply fmap_sublist, sublist_filter.
  - intros f. rewrite list_elem_of_fmap. split.
    + intros ([f' fw] & -> & [Ht Hin]%list_elem_of_filter). exists fw.
      by apply elem_of_map_to_list in Hin.
    + intros (fw & Hfw & Ht). exists (f, fw). split; [done|].
      apply list_elem_of_filter. split; [done|]. by apply elem_of_map_to_list.
Qed.

(** X4.  A created audit is stored under the new id as the document the
    reply carries: score 0, status 'Not Started', no completed control,
    [created_at] and [updated_at] at the two readings of the clock, the
    frameworks of the requested domain type as [frameworks_audited] (at
    least one, none twice), and a [total_controls_in_audit] equal to the
    number of responses created for it.  The catalogue and the other audits
    are untouched. *)
Theorem createAudit_creates (st : Store) (now later : Z) (newId : string)
    (body : AuditBody) (id : string) (doc : Audit) :
  responses st !! newId = None →
  reply (createAudit st now later newId body) = Created (id, doc) →
  let st' := store (createAudit st now later newId body) in
  id = newId
  ∧ audits st' !! newId = Some doc
  ∧ (∀ a, a ≠ newId → audits st' !! a = audits st !! a)
  ∧ controls st' = controls st ∧ frameworks st' = frameworks st
  ∧ summary_of doc = (0, "Not Started", 0)
  ∧ created_at doc = now ∧ updated_at doc = later
  ∧ frameworks_audited doc ≠ [] ∧ NoDup (frameworks_audited doc)
  ∧ (∀ f, f ∈ frameworks_audited doc
          ↔ ∃ fw, frameworks st !! f = Some fw ∧ fw_type fw = ab_domain_type body)
  ∧ total_controls_in_audit doc = Z.of_nat (size (responses_of st' newId)).
Proof.
  intros Hfresh Hcreated st'.
  destruct (createAudit_cases st now later newId body)
    as [(_ & Hreply & _)|[(_ & _ & Hreply & _)|(_ & Hids & found & log & Hfetch & Hend)]];
    [rewrite Hreply in Hcreated; done..|].
  simpl in Hend.
  destruct Hend as [(_ & Hreply & _)|[(_ & _ & Hreply & _)|(_ & _ & Hreply & Hcommit)]];
    rewrite Hreply in Hcreated; try done.
  injection Hcreated as <- <-. fold st' in Hcommit.
  set (ids := frameworks_where_type st (ab_domain_type body)) in *.
  set (doc := newAudit body ids (Z.of_nat (length found)) now later) in *.
  destruct (commit_initial_batch newId found (with_audits st (<[newId := doc]> (audits st))))
    as (st2 & Hcommit' & Hcontrols & Haudits & _ & Hdom & _).
  rewrite Hcommit in Hcommit'. injection Hcommit' as <-.
  destruct (frameworks_where_type_spec st (ab_domain_type body)) as [Hnodup Hmem].
  split; [done|]. split; [rewrite Haudits; apply lookup_insert_eq|].
  split; [intros a Ha; rewrite Haudits; by apply lookup_insert_ne|].
  split; [done|]. split; [by rewrite (commit_frameworks _ _ _ Hcommit)|].
  do 3 (split; [done|]). split; [done|]. split; [done|]. split; [done|].
  pose proof (fetchControls_NoDup st ids found log Hnodup Hfetch) as Hfound.
  assert (dom (responses_of st' newId) = list_to_set found.*1) as Hkeys.
  { apply set_eq. intros cid. rewrite elem_of_dom, elem_of_list_to_set, Hdom.
    unfold responses_of at 1. simpl. rewrite Hfresh. simpl. rewrite lookup_empty.
    split; [intros [[? [=]]|?]; done|by right]. }
  simpl. rewrite <- (size_dom (responses_of st' newId)), Hkeys.
  rewrite size_list_to_set by done. by rewrite length_fmap.
Qed.

Lemma createAudit_creates_witness :
  audits audited !! "X" = Some audit_X
  ∧ total_controls_in_audit audit_X = Z.of_nat (size (responses_of audited "X")).
Proof.
  destruct (createAudit_creates catalogue 1 1 "X" (audit_request "Cloud") "X" audit_X
              eq_refl createAudit_catalogue) as (_ & Hdoc & _ & _ & _ & _ & _ & _ & _ & _ & _ & Htotal).
  split; [exact Hdoc | exact Htotal].
Defined.

Lemma placeholder_incomplete (c c' : Control) (cid : string) :
  isComplete c (placeholder cid c') = false.
Proof. unfold isComplete. apply andb_false_r. Qed.

Lemma filter_none {A} (P : A → Prop) `{!∀ x, Decision (P x)} (l : list A) :
  Forall (λ x, ¬ P x) l → filter P l = [].
Proof.
  induction 1 as [|x l Hx _ IH]; [done|]. by rewrite filter_cons_False.
Qed.

(** The state a creation under an unused id leaves for the new audit. *)
Lemma createAudit_fresh_state (st : Store) (now later : Z) (newId : string)
    (body : AuditBody) (doc : Audit) :
  responses st !! newId = None →
  reply (createAudit st now later newId body) = Created (newId, doc) →
  let st' := store (createAudit st now later newId body) in
  valid_document_id newId = true
  ∧ audits st' !! newId = Some doc
  ∧ summary_of doc = (0, "Not Started", 0)
  ∧ ∀ cid r, responses_of st' newId !! cid = Some r → ∃ c, r = placeholder cid c.
Proof.
  intros Hfresh Hcreated st'.
  destruct (createAudit_cases st now later newId body)
    as [(_ & Hreply & _)|[(_ & _ & Hreply & _)|(_ & _ & found & log & _ & Hend)]];
    [rewrite Hreply in Hcreated; done..|].
  simpl in Hend.
  destruct Hend as [(_ & Hreply & _)|[(_ & _ & Hreply & _)|(Hvalid & _ & Hreply & Hcommit)]];
    rewrite Hreply in Hcreated; try done.
  injection Hcreated as <-. fold st' in Hcommit.
  destruct (commit_initial_batch newId found
              (with_audits st
                 (<[newId := newAudit body (frameworks_where_type st (ab_domain_type body))
                               (Z.of_nat (length found)) now later]> (audits st))))
    as (st2 & Hcommit' & _ & Haudits & _ & _ & Hval).
  rewrite Hcommit in Hcommit'. injection Hcommit' as <-.
  split; [done|].
  split; [rewrite Haudits; apply lookup_insert_eq|]. split; [done|].
  intros cid r Hr. apply Hval in Hr as [Hr|(c & _ & ->)]; [|by eexists].
  unfold responses_of in Hr. simpl in Hr. rewrite Hfresh in Hr.
  change (default ∅ None) with (∅ : gmap string Response) in Hr.
  by rewrite lookup_empty in Hr.
Qed.

(** X5.  Reading an audit right after its creation finds no complete
    control, reports score 0 and 'Not Started', and writes nothing, whatever
    the size of the catalogue. *)
Theorem fresh_audit_read (st : Store) (now later now' : Z) (newId : string)
    (body : AuditBody) (doc : Audit) :
  responses st !! newId = None →
  reply (createAudit st now later newId body) = Created (newId, doc) →
  let st' := store (createAudit st now later newId body) in
  store (getAudit st' now' newId) = st'
  ∧ reply_summary (reply (getAudit st' now' newId)) = Some (0, "Not Started", 0).
Proof.
  intros Hfresh Hcreated st'.
  destruct (createAudit_fresh_state st now later newId body doc Hfresh Hcreated)
    as (Hvalid & Hdoc & Hsummary & Hplace). fold st' in Hdoc, Hplace.
  destruct (getAudit_found st' now' newId doc Hvalid Hdoc) as (p & s & c & Hcomp & Hrun).
  unfold computed_on_read in Hcomp.
  destruct (fetchControls st' (frameworks_audited doc)) as [[found|] log]; [|done].
  assert (countCompleted (Map_of found) (map_to_list (responses_of st' newId)) = 0) as Hcount.
  { rewrite countCompleted_filter, filter_none; [done|].
    apply Forall_forall. intros [cid r] Hin%elem_of_map_to_list.
    destruct (Hplace cid r Hin) as (c' & ->). unfold counted.
    match goal with |- context [Map_get ?m ?k] => destruct (Map_get m k) end;
      simpl; [rewrite placeholder_incomplete|]; by intros []. }
  rewrite Hcount, overallProgress_none_complete in Hcomp. injection Hcomp as <- <- <-.
  change (overallStatus 0) with "Not Started" in Hrun.
  rewrite (proj2 (summary_differs_false doc _ _ _) Hsummary) in Hrun.
  by rewrite Hsummary in Hrun.
Qed.

Lemma fresh_audit_read_witness :
  store (getAudit audited 7 "X") = audited
  ∧ reply_summary (reply (getAudit audited 7 "X")) = Some (0, "Not Started", 0).
Proof.
  apply (fresh_audit_read catalogue 1 1 7 "X" (audit_request "Cloud") audit_X
           eq_refl createAudit_catalogue).
Defined.

(** ** Controls of a framework type *)

(** X6.  GET /api/frameworks/:type/controls never writes.  With no
    framework of the type it answers an empty list without querying the
    controls; with one to ten it issues one query and answers exactly the
    controls whose framework has the type; with more than ten it issues one
    query carrying all of them, which the store rejects, and answers 500. *)
Theorem getFrameworkControls_cases (st : Store) (type : string) :
  let ids := frameworks_where_type st (JStr type) in
  let o := getFrameworkControls st type in
  store o = st
  ∧ (ids = [] → reply o = Ok [] ∧ in_queries o = [])
  ∧ ((1 ≤ length ids ≤ 10)%nat →
     ∃ docs, reply o = Ok docs ∧ in_queries o = [ids]
             ∧ ∀ id c, (id, c) ∈ docs
                       ↔ controls st !! id = Some c
                         ∧ ∃ fw, frameworks st !! framework_id c = Some fw
                                 ∧ fw_type fw = JStr type)
  ∧ ((10 < length ids)%nat → reply o = ServerError ∧ in_queries o = [ids]).
Proof.
  intros ids o. subst o. unfold getFrameworkControls, controls_where_in, in_limit. fold ids.
  split; [|split; [|split]].
  - destruct (decide (length ids = 0%nat)); [done|]. by destruct (decide _).
  - intros ->. done.
  - intros Hlen. rewrite decide_False, decide_True by lia.
    eexists. split; [done|]. split; [done|]. intros id c.
    rewrite controls_in_elem_of. unfold ids.
    by rewrite (proj2 (frameworks_where_type_spec st (JStr type)) (framework_id c)).
  - intros Hlen. by rewrite decide_False, decide_False by lia.
Qed.

Lemma getFrameworkControls_cases_witness :
  ∃ docs, reply (getFrameworkControls catalogue "Cloud") = Ok docs
          ∧ in_queries (getFrameworkControls catalogue "Cloud") = [["F1"]].
Proof.
  destruct (getFrameworkControls_cases catalogue "Cloud") as (_ & _ & Hsome & _).
  destruct Hsome as (docs & Hreply & Hlog & _); [vm_compute; lia|].
  exists docs. split; [exact Hreply | exact Hlog].
Defined.

(** ** Response upserts *)

(** X7.  The progress an upsert returns and stores is computed from the
    responses as they were before the request, over the total stored at
    creation: an upsert that answers 200 returns that progress with its
    status and leaves it, with the count, as the summary of the audit.  Two
    upserts that answer 200, sent to the same audit in the same store,
    therefore get the same reply and leave the same summary, whatever
    control, answers and verdict they carry. *)
Theorem putResponse_ignores_its_answers (st : Store) (now later now' later' : Z)
    (auditId : string) (body body' : ResponseBody) (result result' : Z * string) :
  reply (putResponse st now later auditId body) = Ok result →
  reply (putResponse st now' later' auditId body') = Ok result' →
  result = result'
  ∧ summary_of <$> audits (store (putResponse st now later auditId body)) !! auditId
    = summary_of <$> audits (store (putResponse st now' later' auditId body')) !! auditId
  ∧ ∃ doc found log,
      audits st !! auditId = Some doc
      ∧ fetchControls st (frameworks_audited doc) = (Some found, log)
      ∧ let count := countCompleted (Map_of found) (map_to_list (responses_of st auditId)) in
        let p := overallProgress count (total_controls_in_audit doc) in
        result = (p, overallStatus p)
        ∧ summary_of <$> audits (store (putResponse st now later auditId body)) !! auditId
          = Some (p, overallStatus p, count).
Proof.
  intros Hok Hok'.
  destruct (putResponse_Ok _ _ _ _ _ _ Hok)
    as (cid & qrs & a & found & log & _ & _ & Ha & Hfetch & -> & ->).
  destruct (putResponse_Ok _ _ _ _ _ _ Hok')
    as (cid' & qrs' & a' & found' & log' & _ & _ & Ha' & Hfetch' & -> & ->).
  rewrite Ha in Ha'. injection Ha' as <-.
  rewrite Hfetch in Hfetch'. injection Hfetch' as <- <-.
  unfold upserted. simpl. rewrite !lookup_insert_eq.
  split; [done|]. split; [done|]. exists a, found, log. done.
Qed.

Lemma putResponse_ignores_its_answers_witness :
  (0, "Not Started") = (0, "Not Started")
  ∧ summary_of <$> audits (store (putResponse audited 2 2 "X" answers_A)) !! "X"
    = summary_of <$> audits (store (putResponse audited 3 4 "X" (answers_B JUndefined JNull)))
                       !! "X".
Proof.
  destruct (putResponse_ignores_its_answers audited 2 2 3 4 "X" answers_A
              (answers_B JUndefined JNull) (0, "Not Started") (0, "Not Started")
              eq_refl eq_refl) as (Hreply & Hsummary & _).
  split; [exact Hreply | exact Hsummary].
Defined.

(** X8.  After an upsert that answers 200, reading the response of the same
    audit and control returns the stored document: the control id and the
    question responses exactly as they were sent, dated with the time of
    the upsert. *)
Theorem putResponse_then_getResponse (st : Store) (now later : Z) (auditId : string)
    (body : ResponseBody) (result : Z * string) :
  reply (putResponse st now later auditId body) = Ok result →
  ∃ cid qrs r,
    rb_control_id body = JStr cid
    ∧ rb_question_responses body = Some qrs
    ∧ reply (getResponse (store (putResponse st now later auditId body)) auditId cid) = Ok r
    ∧ control_id r = JStr cid
    ∧ question_responses r = Some qrs
    ∧ response_date r = JNum now.
Proof.
  intros Hok.
  destruct (putResponse_Ok _ _ _ _ _ _ Hok)
    as (cid & qrs & a & found & log & Hcid & Hqrs & _ & _ & _ & Hstore).
  destruct (putResponse_Ok_ids _ _ _ _ _ _ _ Hok Hcid) as [Haudit Hcontrol].
  rewrite Hstore.
  exists cid, qrs. eexists. split; [done|]. split; [done|].
  unfold getResponse, upserted. rewrite Haudit, Hcontrol.
  rewrite responses_of_with_audits, responses_of_insert, decide_True by done.
  simpl. done.
Qed.

Lemma putResponse_then_getResponse_witness :
  ∃ r, reply (getResponse (store (putResponse audited 2 2 "X" answers_A)) "X" "A") = Ok r
       ∧ question_responses r = rb_question_responses answers_A.
Proof.
  destruct (putResponse_then_getResponse audited 2 2 "X" answers_A (0, "Not Started") eq_refl)
    as (cid & qrs & r & Hcid & Hqrs & Hreply & _ & Hstored & _).
  injection Hcid as <-. exists r. split; [exact Hreply|]. by rewrite Hstored, Hqrs.
Defined.


Lemma audited_X : audits audited !! "X" = Some audit_X.
Proof. vm_compute. reflexivity. Qed.


(** ** Reading an audit *)



(** ** Seeding controls *)

Lemma seed_batch_seeded (controlsData : list (JsVal * Control)) :
  document_ids controlsData →
  seed_batch controlsData = Some ((λ d, SetControl d.1 d.2) <$> seeded controlsData).
Proof.
  unfold document_ids, seeded. induction 1 as [|[v c] data Hv _ IH]; [done|].
  simpl in *. rewrite IH. destruct (truthy v) eqn:Htruthy.
  - destruct (Hv eq_refl) as (id & -> & ->). simpl in Htruthy.
    by destruct (String.eqb id "").
  - destruct v as [| | | |id]; try done. simpl in Htruthy.
    by destruct (String.eqb id "").
Qed.

Lemma seed_batch_accepts (controlsData : list (JsVal * Control)) (batch : list Write) :
  seed_batch controlsData = Some batch → document_ids controlsData.
Proof.
  unfold document_ids. revert batch.
  induction controlsData as [|[v c] data IH]; intros batch; [by constructor|].
  simpl. destruct (truthy v) eqn:Htruthy.
  - destruct v as [| | | |id]; try done.
    destruct (valid_document_id id) eqn:Hvalid; [|done].
    destruct (seed_batch data) as [rest|] eqn:Hrest; [|done].
    intros _. constructor; [by eauto|by eapply IH].
  - intros Hrest. constructor; [|by eapply IH]. simpl. by rewrite Htruthy.
Qed.

(** A batch of control writes always commits; it touches only the controls
    it names, each of which ends up holding a control of the batch. *)
Lemma commit_controls (l : list (string * Control)) (st : Store) :
  ∃ st',
    commit st ((λ d, SetControl d.1 d.2) <$> l) = Some st'
    ∧ frameworks st' = frameworks st ∧ audits st' = audits st
    ∧ responses st' = responses st
    ∧ ∀ id, (id ∉ l.*1 → controls st' !! id = controls st !! id)
            ∧ (id ∈ l.*1 → ∃ c, controls st' !! id = Some c ∧ (id, c) ∈ l).
Proof.
  revert st. induction l as [|[i c0] l IH]; intros st.
  - exists st. split; [done|]. do 3 (split; [done|]). intros id.
    split; [done|]. by intros ?%elem_of_nil.
  - rewrite fmap_cons, commit_cons. simpl.
    destruct (IH (with_controls st (<[i := c0]> (controls st))))
      as (st' & Hcommit & Hfw & Haudits & Hresp & Hcontrols).
    exists st'. split; [exact Hcommit|]. do 3 (split; [done|]).
    intros id. destruct (Hcontrols id) as [Hout Hin]. simpl in Hout. split.
    + intros Hnot%not_elem_of_cons. destruct Hnot as [Hne Hnot].
      rewrite Hout by done. by apply lookup_insert_ne.
    + intros Hid. destruct (decide (id ∈ l.*1)) as [Hl|Hl].
      * destruct (Hin Hl) as (c & Hc & Hmem). exists c. split; [done|]. by right.
      * apply elem_of_cons in Hid as [->|?]; [|done].
        exists c0. rewrite Hout by done. split; [apply lookup_insert_eq|left].
Qed.


Lemma seedControls_nonempty (st : Store) (data : list (JsVal * Control)) :
  data ≠ [] →
  seedControls st (Some data)
  = match seed_batch data ≫= commit st with
    | Some st' =>
        {| reply := Created (Z.of_nat (length data)); store := st'; in_queries := [] |}
    | None => {| reply := ServerError; store := st; in_queries := [] |}
    end.
Proof. by destruct data. Qed.



(** ** The audits of a user *)

Lemma newer_first_total : Total newer_first.
Proof. intros d1 d2. unfold newer_first. lia. Qed.

Lemma newer_first_trans : Transitive newer_first.
Proof. intros d1 d2 d3. unfold newer_first. lia. Qed.

Lemma StronglySorted_lookup_lt {A} (R : relation A) (l : list A) (i j : nat) (x y : A) :
  StronglySorted R l → l !! i = Some x → l !! j = Some y → (i < j)%nat → R x y.
Proof.
  intros Hsorted. revert i j.
  induction Hsorted as [|d l Hl IH Hd]; intros i j Hi Hj Hlt; [done|].
  destruct j as [|j]; [lia|]. simpl in Hj. destruct i as [|i].
  - simpl in Hi. injection Hi as <-. rewrite Forall_forall in Hd.
    apply Hd. by eapply list_elem_of_lookup_2.
  - simpl in Hi. apply (IH i j); [done|done|lia].
Qed.

(** X13.  GET /api/audits answers 400 when the user id is missing or empty.
    Otherwise it answers 200 with exactly the audits whose [user_id] is the
    given one, each once, ordered so that no audit comes before one created
    later.  It never writes. *)
Theorem listAudits_spec (st : Store) (userId : option string) :
  let o := listAudits st userId in
  store o = st
  ∧ (userId = None ∨ userId = Some "" → reply o = BadRequest)
  ∧ (∀ u, userId = Some u → u ≠ "" →
       ∃ l, reply o = Ok l
            ∧ (∀ id a, (id, a) ∈ l ↔ audits st !! id = Some a ∧ user_id a = JStr u)
            ∧ NoDup l.*1
            ∧ ∀ (i j : nat) d1 d2, l !! i = Some d1 → l !! j = Some d2 → (i < j)%nat →
                                   created_at d2.2 ≤ created_at d1.2).
Proof.
  intros o. subst o. unfold listAudits. split; [|split].
  - destruct userId as [u|]; [|done]. by destruct (String.eqb u "").
  - by intros [-> | ->].
  - intros u -> Hne. destruct (String.eqb_spec u ""); [done|].
    set (mine := filter (λ d, user_id d.2 = JStr u) (map_to_list (audits st))).
    eexists. split; [done|].
    pose proof (merge_sort_Permutation newer_first mine) as Hperm.
    split; [|split].
    + intros id a. rewrite Hperm. unfold mine.
      rewrite list_elem_of_filter, elem_of_map_to_list. simpl. tauto.
    + rewrite Hperm. eapply sublist_NoDup; [apply (NoDup_fst_map_to_list (audits st))|].
      apply fmap_sublist, sublist_filter.
    + intros i j d1 d2 Hi Hj Hlt.
      pose proof (@StronglySorted_merge_sort _ newer_first _ newer_first_trans
                    newer_first_total mine) as Hsorted.
      apply (StronglySorted_lookup_lt newer_first _ i j d1 d2 Hsorted Hi Hj Hlt).
Qed.

Lemma listAudits_spec_witness :
  ∃ l, reply (listAudits audited (Some "u1")) = Ok l
       ∧ ((("X", audit_X) ∈ l) ↔ audits audited !! "X" = Some audit_X ∧ user_id audit_X = JStr "u1").
Proof.
  destruct (listAudits_spec audited (Some "u1")) as (_ & _ & Hlist).
  destruct (Hlist "u1" eq_refl) as (l & Hreply & Hmem & _); [discriminate|].
  exists l. split; [exact Hreply | apply Hmem].
Defined.

(** ** What every reachable store satisfies *)

Lemma ok_same_documents (st st' : Store) :
  audits st' = audits st → responses st' = responses st →
  responses_ok st ∧ audits_ok st → responses_ok st' ∧ audits_ok st'.
Proof.
  intros Ha Hr [Hresp Haud]. unfold responses_ok, audits_ok, responses_of in *.
  rewrite Ha, Hr. done.
Qed.

Lemma js_or_truthy (v : JsVal) (s : string) :
  s ≠ "" → truthy (js_or v (JStr s)) = true.
Proof.
  intros Hne. unfold js_or. destruct (truthy v) eqn:Hv; [done|].
  simpl. by destruct (String.eqb_spec s "").
Qed.

Lemma responses_of_same (st st' : Store) (a : string) :
  (∀ cid, responses_of st' a !! cid = responses_of st a !! cid) →
  responses_of st' a = responses_of st a.
Proof. apply map_eq. Qed.

(** Adding a fresh audit document keeps what the stored documents
    satisfy. *)
Lemma added_keeps_ok (st : Store) (newId : string) (doc : Audit) :
  responses_ok st ∧ audits_ok st →
  summary_of doc = (0, "Not Started", 0) → 0 ≤ total_controls_in_audit doc →
  frameworks_audited doc ≠ [] → NoDup (frameworks_audited doc) →
  responses_ok (with_audits st (<[newId := doc]> (audits st)))
  ∧ audits_ok (with_audits st (<[newId := doc]> (audits st))).
Proof.
  intros [Hresp Haud] [= Hscore Hstatus Hcount] Htotal Hne Hnodup. split.
  - intros a cid r Hr. rewrite responses_of_with_audits in Hr.
    destruct (Hresp a cid r Hr) as (Ha & Hrest). split; [|done]. simpl.
    destruct (decide (a = newId)) as [->|Hneq];
      [rewrite lookup_insert_eq; by eexists|by rewrite lookup_insert_ne].
  - intros a d. simpl. rewrite responses_of_with_audits.
    destruct (decide (a = newId)) as [->|Hneq].
    + rewrite lookup_insert_eq. intros [= <-]. rewrite Hscore, Hstatus, Hcount.
      split; [done|]. split; [lia|done].
    + rewrite lookup_insert_ne by done. apply Haud.
Qed.

Lemma createAudit_keeps_ok (st : Store) (now later : Z) (newId : string)
    (body : AuditBody) :
  responses_ok st ∧ audits_ok st →
  responses_ok (store (createAudit st now later newId body))
  ∧ audits_ok (store (createAudit st now later newId body)).
Proof.
  intros [Hresp Haud].
  destruct (createAudit_cases st now later newId body)
    as [(_ & _ & -> & _)|[(_ & _ & _ & -> & _)|(_ & Hids & found & log & Hfetch & Hend)]];
    [done|done|].
  simpl in Hend.
  set (ids := frameworks_where_type st (ab_domain_type body)) in *.
  set (doc := newAudit body ids (Z.of_nat (length found)) now later) in *.
  destruct Hend as [(_ & _ & ->)|[(_ & _ & _ & ->)|(_ & _ & _ & Hcommit)]]; [done| |].
  { apply added_keeps_ok; [done|done|simpl; lia|by destruct ids|].
    apply frameworks_where_type_spec. }
  set (st' := store (createAudit st now later newId body)) in *.
  destruct (commit_initial_batch newId found (with_audits st (<[newId := doc]> (audits st))))
    as (st2 & Hcommit' & _ & Haudits & Hother & Hdom & Hval).
  rewrite Hcommit in Hcommit'. injection Hcommit' as <-. simpl in Haudits.
  change (∀ a, a ≠ newId → responses_of st' a = responses_of st a) in Hother.
  split.
  - intros a cid r Hr. destruct (decide (a = newId)) as [->|Hne].
    + split; [rewrite Haudits, lookup_insert_eq; by eexists|].
      apply Hval in Hr as [Hr|(c & _ & ->)]; [by apply (Hresp newId cid r)|].
      split; [done|]. split; [by eexists|done].
    + rewrite Hother in Hr by done. destruct (Hresp a cid r Hr) as (Ha & Hrest).
      split; [|done]. by rewrite Haudits, lookup_insert_ne.
  - intros a d. rewrite Haudits. destruct (decide (a = newId)) as [->|Hne].
    + rewrite lookup_insert_eq. intros [= <-]. split; [done|]. simpl.
      split; [lia|]. split; [lia|]. split; [by destruct ids|].
      apply frameworks_where_type_spec.
    + rewrite lookup_insert_ne, Hother by done. apply Haud.
Qed.

Lemma getAudit_keeps_ok (st : Store) (now : Z) (auditId : string) :
  responses_ok st ∧ audits_ok st →
  responses_ok (store (getAudit st now auditId)) ∧ audits_ok (store (getAudit st now auditId)).
Proof.
  intros [Hresp Haud].
  destruct (valid_document_id auditId) eqn:Hvalid.
  2: { unfold getAudit. by rewrite Hvalid. }
  destruct (audits st !! auditId) as [doc|] eqn:Hdoc.
  2: { unfold getAudit. by rewrite Hvalid, Hdoc. }
  destruct (getAudit_found st now auditId doc Hvalid Hdoc) as (p & s & c & Hcomp & Hrun).
  destruct (summary_differs doc p s c); destruct Hrun as [-> _]; [|done].
  unfold computed_on_read in Hcomp.
  destruct (fetchControls st (frameworks_audited doc)) as [[found|] log]; [|done].
  injection Hcomp as <- <- <-. split.
  - intros a cid r Hr. rewrite responses_of_with_audits in Hr.
    destruct (Hresp a cid r Hr) as (Ha & Hrest). split; [|done]. simpl.
    destruct (decide (a = auditId)) as [->|Hne];
      [rewrite lookup_insert_eq; by eexists|by rewrite lookup_insert_ne].
  - intros a d. simpl. rewrite responses_of_with_audits.
    destruct (decide (a = auditId)) as [->|Hne].
    + rewrite lookup_insert_eq. intros [= <-]. simpl. split; [done|].
      destruct (Haud auditId doc Hdoc) as (_ & _ & Htotal & Hfw).
      pose proof (countCompleted_filter (Map_of found) (map_to_list (responses_of st auditId)))
        as Hcount.
      pose proof (length_filter (λ d, counted (Map_of found) d)
                    (map_to_list (responses_of st auditId))) as Hle.
      rewrite length_map_to_list in Hle. split; [lia|done].
    + rewrite lookup_insert_ne by done. apply Haud.
Qed.

Lemma putResponse_keeps_ok (st : Store) (now later : Z) (auditId : string)
    (body : ResponseBody) :
  responses_ok st ∧ audits_ok st →
  responses_ok (store (putResponse st now later auditId body))
  ∧ audits_ok (store (putResponse st now later auditId body)).
Proof.
  intros [Hresp Haud].
  destruct (reply (putResponse st now later auditId body)) as [result| | | |] eqn:Hreply.
  2-5: by rewrite putResponse_not_Ok by (intros ?; rewrite Hreply; done).
  destruct (putResponse_Ok _ _ _ _ _ _ Hreply)
    as (cid & qrs & doc & found & log & _ & _ & Hdoc & _ & _ & ->).
  unfold upserted.
  set (sub := responses_of st auditId).
  set (r := set_doc (sub !! cid) (responseData (JStr cid) qrs body now) true).
  set (c := countCompleted (Map_of found) (map_to_list sub)).
  split.
  - intros a cid' r' Hr. rewrite responses_of_with_audits, responses_of_insert in Hr.
    assert (is_Some ((<[auditId := update_summary doc
                                     (overallProgress c (total_controls_in_audit doc))
                                     (overallStatus (overallProgress c (total_controls_in_audit doc)))
                                     c later]> (audits st)) !! a) ↔ is_Some (audits st !! a)) as Hsame.
    { destruct (decide (a = auditId)) as [->|Hne];
        [rewrite lookup_insert_eq, Hdoc; split; by eexists|by rewrite lookup_insert_ne]. }
    simpl. rewrite Hsame.
    destruct (decide (a = auditId ∧ cid' = cid)) as [[-> ->]|Hne].
    + injection Hr as <-. split; [by eexists|]. split; [done|]. split; [by eexists|].
      apply js_or_truthy. discriminate.
    + by apply Hresp.
  - intros a d. simpl. destruct (decide (a = auditId)) as [->|Hne].
    + rewrite lookup_insert_eq. intros [= <-]. simpl. split; [done|].
      destruct (Haud auditId doc Hdoc) as (_ & _ & Htotal & Hfw).
      split; [|done]. unfold responses_of at 1. simpl. rewrite lookup_insert_eq. simpl.
      pose proof (countCompleted_filter (Map_of found) (map_to_list sub)) as Hcount.
      pose proof (length_filter (λ d, counted (Map_of found) d) (map_to_list sub)) as Hle.
      rewrite length_map_to_list in Hle. fold c in Hcount.
      rewrite map_size_insert. destruct (sub !! cid); simpl; lia.
    + rewrite lookup_insert_ne by done.
      rewrite (responses_of_same st (with_audits (with_responses st _) _) a); [apply Haud|].
      intros cid'. rewrite responses_of_with_audits, responses_of_insert.
      by rewrite decide_False by (by intros [? _]).
Qed.

Lemma seedControls_keeps_documents (st : Store) (body : option (list (JsVal * Control))) :
  audits (store (seedControls st body)) = audits st
  ∧ responses (store (seedControls st body)) = responses st.
Proof.
  destruct body as [data|]; [|done].
  destruct (decide (data = [])) as [->|Hne]; [done|].
  rewrite seedControls_nonempty by done.
  destruct (seed_batch data) as [batch|] eqn:Hbatch; [|done].
  pose proof (seed_batch_seeded _ (seed_batch_accepts _ _ Hbatch)) as Hseeded.
  rewrite Hbatch in Hseeded. injection Hseeded as ->.
  change (Some ?b ≫= commit st) with (commit st b).
  by destruct (commit_controls (seeded data) st) as (st' & -> & _ & ? & ? & _).
Qed.

Lemma handle_keeps_ok (st : Store) (now later : Z) (r : Request) :
  responses_ok st ∧ audits_ok st →
  responses_ok (handle st now later r) ∧ audits_ok (handle st now later r).
Proof.
  destruct r; simpl.
  - apply createAudit_keeps_ok.
  - apply getAudit_keeps_ok.
  - unfold getResponse. destruct (negb _); [done|]. by destruct (_ !! controlId).
  - apply putResponse_keeps_ok.
  - destruct (seedControls_keeps_documents st body). by apply ok_same_documents.
  - unfold getFrameworkControls. destruct (decide _); [done|]. by destruct (controls_where_in _ _).
  - unfold listAudits. destruct userId as [u|]; [|done]. by destruct (String.eqb u "").
Qed.

Lemma reachable_ok (st : Store) : reachable st → responses_ok st ∧ audits_ok st.
Proof.
  induction 1 as [st Haudits Hresponses|st now later r _ IH _].
  - split.
    + intros a cid r. unfold responses_of. rewrite Hresponses, lookup_empty. simpl.
      by rewrite lookup_empty.
    + intros a doc. by rewrite Haudits, lookup_empty.
  - by apply handle_keeps_ok.
Qed.


(** X15.  In every such store, each audit has the status its score
    determines ('Completed' at 100, 'In Progress' above 0, 'Not Started'
    otherwise), a completed count between 0 and the number of responses
    stored for it, a total that is not negative, and at least one audited
    framework, none listed twice. *)
Theorem reachable_audits (st : Store) (auditId : string) (doc : Audit) :
  reachable st →
  audits st !! auditId = Some doc →
  overall_status doc = overallStatus (overall_score doc)
  ∧ 0 ≤ completed_controls_in_audit doc ≤ Z.of_nat (size (responses_of st auditId))
  ∧ 0 ≤ total_controls_in_audit doc
  ∧ frameworks_audited doc ≠ [] ∧ NoDup (frameworks_audited doc).
Proof. intros Hreach. by apply (reachable_ok st Hreach). Qed.

Lemma audited_reachable : reachable audited.
Proof.
  apply (reachable_step catalogue 1 1 (CreateAudit "X" (audit_request "Cloud"))).
  - by apply reachable_start.
  - reflexivity.
Qed.


Lemma reachable_audits_witness :
  overall_status audit_X = overallStatus (overall_score audit_X)
  ∧ 0 ≤ completed_controls_in_audit audit_X ≤ Z.of_nat (size (responses_of audited "X")).
Proof.
  destruct (reachable_audits audited "X" audit_X audited_reachable audited_X)
    as (Hstatus & Hcompleted & _).
  split; [exact Hstatus | exact Hcompleted].
Defined.

(** ** The checklist *)

Lemma data_rows_app (l k : list Sheet.SheetRow) :
  data_rows (l ++ k) = data_rows l ++ data_rows k.
Proof. apply omap_app. Qed.

Lemma data_rows_DataRow (l : list Sheet.Row) : data_rows (Sheet.DataRow <$> l) = l.
Proof. induction l as [|r l IH]; [done|]. simpl. f_equal. exact IH. Qed.

Lemma data_rows_blocks {X} (rows : X → list Sheet.Row) (f : nat → X → list Sheet.SheetRow)
    (l : list X) :
  (∀ i x, data_rows (f i x) = rows x) →
  data_rows (mjoin (imap f l)) = l ≫= rows.
Proof.
  revert f. induction l as [|x l IH]; intros f Hf; [done|].
  rewrite imap_cons. simpl. rewrite data_rows_app, Hf, (IH (f ∘ S)); [done|].
  intros i y. apply Hf.
Qed.

Lemma controlRows_length (protocol host : string) (auditResponses : gmap string Response)
    (control : string * Control) :
  length (controlRows protocol host auditResponses control)
  = length (default [] (questionnaires control.2)).
Proof. apply length_imap. Qed.

Lemma bind_length_sum {X Y} (f : X → list Y) (l : list X) :
  length (l ≫= f) = sum_list_with (λ x, length (f x)) l.
Proof.
  induction l as [|x l IH]; [done|]. rewrite bind_cons, length_app, IH. done.
Qed.

Lemma sum_list_with_pointwise {X} (f g : X → nat) (l : list X) :
  (∀ x, f x = g x) → sum_list_with f l = sum_list_with g l.
Proof. intros Hfg. induction l as [|x l IH]; [done|]. simpl. by rewrite Hfg, IH. Qed.

(** The data rows of a sheet over a non-empty list of controls. *)
Lemma checklistRows_data (protocol host : string) (auditResponses : gmap string Response)
    (l : list (string * Control)) :
  l ≠ [] →
  data_rows (checklistRows protocol host auditResponses l)
  = l ≫= controlRows protocol host auditResponses.
Proof.
  intros Hne. unfold checklistRows. rewrite decide_False by (by destruct l). simpl.
  apply data_rows_blocks. intros i control. unfold controlBlock.
  rewrite data_rows_app, data_rows_DataRow. by destruct (bool_decide _); rewrite ?app_nil_r.
Qed.

(** X16.  The checklist export never writes, and answers 404 for an audit
    that does not exist when the id names a document.  An export that
    answers 200 was of an audit that exists: for an audit without control in
    its frameworks the sheet holds the single row saying so; otherwise, blank
    separator rows apart, the sheet holds the rows of each control in sorted
    order, and their number is the number of questions of the controls of
    the audited frameworks, whatever the collation: a control without
    question adds no row, and a control adds its rows whether or not a
    response is stored for it. *)
Theorem getChecklist_rows (sortById : list (string * Control) → list (string * Control))
    (st : Store) (protocol host auditId : string) :
  (∀ l, sortById l ≡ₚ l) →
  let o := getChecklist sortById st protocol host auditId in
  store o = st
  ∧ (valid_document_id auditId = true → audits st !! auditId = None → reply o = NotFound)
  ∧ (∀ rows, reply o = Ok rows →
       ∃ doc found log,
         audits st !! auditId = Some doc
         ∧ fetchControls st (frameworks_audited doc) = (Some found, log)
         ∧ (found = [] → rows = [Sheet.DataRow noControlsRow])
         ∧ (found ≠ [] →
            data_rows rows
            = sortById found ≫= controlRows protocol host (responses_of st auditId)
            ∧ length (data_rows rows)
              = sum_list_with (λ control, length (default [] (questionnaires control.2)))
                  found)).
Proof.
  intros Hperm o. subst o. unfold getChecklist.
  destruct (valid_document_id auditId); simpl; [|done].
  destruct (audits st !! auditId) as [doc|] eqn:Hdoc; [|done].
  destruct (fetchControls_chunks st (frameworks_audited doc)) as (chunks & Hfetch & _).
  rewrite Hfetch. destruct (sheet_name_accepted (title doc)); simpl; [|done].
  split; [done|]. split; [done|].
  intros ? [= <-]. exists doc. rewrite Hfetch. eexists _, _. split; [done|]. split; [done|].
  set (found := mjoin (controls_in st <$> chunks)). split.
  - intros Hnil. rewrite Hnil.
    pose proof (Hperm []) as Hempty. apply Permutation_nil_r in Hempty. by rewrite Hempty.
  - intros Hne.
    assert (sortById found ≠ []) as Hne'.
    { intros Hnil. pose proof (Hperm found) as Hp. rewrite Hnil in Hp.
      by apply Permutation_nil_l in Hp. }
    rewrite checklistRows_data by done. split; [done|].
    rewrite bind_length_sum, (Hperm found).
    apply sum_list_with_pointwise. intros control. apply controlRows_length.
Qed.

Lemma sortByIdBytes_Permutation (l : list (string * Control)) : sortByIdBytes l ≡ₚ l.
Proof. apply merge_sort_Permutation. Qed.

Lemma getChecklist_rows_witness :
  reply (getChecklist sortByIdBytes catalogue "http" "localhost" "X") = NotFound
  ∧ ∃ rows, reply (getChecklist sortByIdBytes audited "http" "localhost" "X") = Ok rows
            ∧ length (data_rows rows) = 3%nat.
Proof.
  split.
  - by apply (getChecklist_rows sortByIdBytes catalogue "http" "localhost" "X"
                sortByIdBytes_Permutation).
  - destruct (getChecklist_rows sortByIdBytes audited "http" "localhost" "X"
                sortByIdBytes_Permutation) as (_ & _ & Hrows).
    assert (∃ rows, reply (getChecklist sortByIdBytes audited "http" "localhost" "X")
                    = Ok rows) as [rows Hreply].
    { vm_compute. eexists. reflexivity. }
    destruct (Hrows rows Hreply) as (doc & found & log & Hdoc & Hfetch & _ & Hdata).
    exists rows. split; [exact Hreply|].
    rewrite audited_X in Hdoc. injection Hdoc as <-.
    vm_compute in Hfetch. injection Hfetch as <- <-.
    destruct Hdata as [_ ->]; [discriminate|reflexivity].
Defined.

Lemma js_or_default_truthy (v w : JsVal) : truthy w = true → truthy (js_or v w) = true.
Proof. intros Hw. unfold js_or. by destruct (truthy v) eqn:Hv. Qed.

(** X17.  The row of question [i] of a control carries the question's text,
    and its Selected Option cell is never empty: it is 'Not Answered' when
    no answer is stored at that position, be it that the control has no
    response or that the response holds fewer answers than the control has
    questions.  The control id, status, justification, maturity, AI
    recommendation and evidence cells are filled on the control's first row
    only, where the status is never empty and, without a stored response,
    reads 'Not Answered' with no evidence link. *)
Theorem controlRows_cells (protocol host : string) (auditResponses : gmap string Response)
    (control : string * Control) (i : nat) (q : Question) :
  default [] (questionnaires control.2) !! i = Some q →
  ∃ row,
    controlRows protocol host auditResponses control !! i = Some row
    ∧ Sheet.question row = q_question_text q
    ∧ truthy (Sheet.selectedOption row) = true
    ∧ ((∀ r qrs, auditResponses !! control.1 = Some r → question_responses r = Some qrs →
                 qrs !! i = None) →
       Sheet.selectedOption row = JStr "Not Answered")
    ∧ (i ≠ 0%nat →
       Sheet.controlId row = JStr "" ∧ Sheet.controlObjective row = JStr ""
       ∧ Sheet.complianceStatus row = JStr "" ∧ Sheet.justification row = JStr ""
       ∧ Sheet.maturityLevel row = JStr "" ∧ Sheet.aiRecommendation row = JStr ""
       ∧ Sheet.evidenceFilename row = JStr ""
       ∧ Sheet.evidenceLink row = Sheet.LinkText "N/A")
    ∧ (i = 0%nat →
       Sheet.controlId row = JStr control.1
       ∧ truthy (Sheet.complianceStatus row) = true
       ∧ (auditResponses !! control.1 = None →
          Sheet.complianceStatus row = JStr "Not Answered"
          ∧ Sheet.evidenceLink row = Sheet.LinkText "N/A")).
Proof.
  intros Hq. unfold controlRows. rewrite list_lookup_imap, Hq. simpl.
  eexists. split; [done|]. split; [done|]. split; [by apply js_or_default_truthy|].
  split; [|split].
  - intros Hnone. destruct (auditResponses !! control.1) as [r|]; [|done]. simpl.
    destruct (question_responses r) as [qrs|] eqn:Hqrs; [|done].
    by rewrite (Hnone r qrs eq_refl Hqrs).
  - intros Hi. by destruct i.
  - intros ->. simpl. split; [done|]. split; [by apply js_or_default_truthy|].
    by intros ->.
Qed.

Lemma controlRows_cells_witness :
  ∃ row,
    controlRows "http" "localhost" ∅ ("B", control_in "F1" [question "q3"]) !! 0%nat = Some row
    ∧ Sheet.selectedOption row = JStr "Not Answered"
    ∧ Sheet.controlId row = JStr "B".
Proof.
  destruct (controlRows_cells "http" "localhost" ∅ ("B", control_in "F1" [question "q3"])
              0 (question "q3") eq_refl)
    as (row & Hrow & _ & _ & Hnone & _ & Hfirst).
  exists row. split; [exact Hrow|]. split.
  - apply Hnone. intros r qrs Hr. by rewrite lookup_empty in Hr.
  - by apply Hfirst.
Defined.

(** X18.  The sheet depends on the stored responses only through those of
    the controls it lists: responses stored under other ids, such as those
    of controls outside the audited frameworks, leave every row as it is. *)
Theorem checklistRows_listed_responses (protocol host : string)
    (auditResponses auditResponses' : gmap string Response) (l : list (string * Control)) :
  (∀ control, control ∈ l → auditResponses' !! control.1 = auditResponses !! control.1) →
  checklistRows protocol host auditResponses' l = checklistRows protocol host auditResponses l.
Proof.
  intros Hsame. unfold checklistRows. do 2 f_equal.
  apply imap_ext. intros i control Hi. unfold controlBlock, controlRows.
  by rewrite (Hsame control) by (by eapply list_elem_of_lookup_2).
Qed.

Lemma checklistRows_listed_responses_witness :
  checklistRows "http" "localhost" (<["ghost" := blank_answer]> ∅)
    [("B", control_in "F1" [question "q3"])]
  = checklistRows "http" "localhost" ∅ [("B", control_in "F1" [question "q3"])].
Proof.
  apply (checklistRows_listed_responses "http" "localhost" ∅ (<["ghost" := blank_answer]> ∅)
           [("B", control_in "F1" [question "q3"])]).
  intros control Hin. apply list_elem_of_singleton in Hin as ->. reflexivity.
Defined.

(** ** Ids that name no document *)

Lemma string_has_app (c : ascii) (a b : string) :
  string_has c (a +:+ b) = string_has c a || string_has c b.
Proof. induction a as [|x a IH]; simpl; [done|]. by rewrite IH, orb_assoc. Qed.

Lemma two_segments_refused (path : string) :
  two_segments path → doc_accepts path = false ∧ valid_document_id path = false
                      ∧ truthy (JStr path) = true.
Proof.
  intros (a & b & -> & Ha & _).
  assert (doc_accepts (a +:+ "/" +:+ b) = false) as Hrefused.
  { unfold doc_accepts. rewrite string_has_app. simpl.
    rewrite orb_true_r. apply andb_false_r. }
  split; [exact Hrefused|]. split; [unfold valid_document_id; by rewrite Hrefused|].
  destruct a; [done|reflexivity].
Qed.

(** X19.  An id of two segments, such as [a/b], names no document, and
    every route that addresses a document by it answers 500 and writes
    nothing: reading an audit, reading a response, the id standing for the
    audit or for the control, an upsert that passes validation, the id
    again standing for either, and the checklist export; a seed request that
    carries it as the id of a control stores none of its controls. *)
Theorem two_segment_ids_refused (sortById : list (string * Control) → list (string * Control))
    (st : Store) (now later : Z) (path : string) :
  two_segments path →
  (reply (getAudit st now path) = ServerError ∧ store (getAudit st now path) = st)
  ∧ (∀ other, reply (getResponse st path other) = ServerError
              ∧ reply (getResponse st other path) = ServerError)
  ∧ (∀ body qrs,
       truthy (rb_control_id body) = true → rb_question_responses body = Some qrs →
       reply (putResponse st now later path body) = ServerError
       ∧ store (putResponse st now later path body) = st)
  ∧ (∀ auditId body qrs,
       rb_control_id body = JStr path → rb_question_responses body = Some qrs →
       reply (putResponse st now later auditId body) = ServerError
       ∧ store (putResponse st now later auditId body) = st)
  ∧ (∀ data c, (JStr path, c) ∈ data →
               reply (seedControls st (Some data)) = ServerError
               ∧ store (seedControls st (Some data)) = st)
  ∧ (∀ protocol host,
       reply (getChecklist sortById st protocol host path) = ServerError
       ∧ store (getChecklist sortById st protocol host path) = st).
Proof.
  intros Hpath. destruct (two_segments_refused path Hpath) as (Hdoc & Hvalid & Htruthy).
  split; [unfold getAudit; by rewrite Hvalid|].
  split.
  { intros other. unfold getResponse. rewrite Hvalid, andb_false_r. done. }
  split.
  { intros body qrs Hcid Hqrs. unfold putResponse. rewrite Hcid, Hqrs, Hdoc.
    by destruct (rb_control_id body). }
  split.
  { intros auditId body qrs Hcid Hqrs. unfold putResponse.
    rewrite Hcid, Htruthy, Hqrs, Hdoc, andb_false_r. done. }
  split.
  { intros data c Hin.
    assert (seed_batch data = None) as Hnone.
    { destruct (seed_batch data) as [batch|] eqn:Hbatch; [|done].
      pose proof (seed_batch_accepts _ _ Hbatch) as Hids.
      unfold document_ids in Hids. rewrite Forall_forall in Hids.
      destruct (Hids _ Hin Htruthy) as (id & [= <-] & Hid). congruence. }
    rewrite seedControls_nonempty by (intros ->; by apply elem_of_nil in Hin).
    by rewrite Hnone. }
  intros protocol host. unfold getChecklist. by rewrite Hvalid.
Qed.

Lemma two_segment_ids_refused_witness :
  reply (getAudit audited 5 "a/b") = ServerError
  ∧ reply (getResponse audited "X" "a/b") = ServerError
  ∧ reply (putResponse audited 5 6 "X" (response_request (JStr "a/b") (Some []) JUndefined))
    = ServerError.
Proof.
  destruct (two_segment_ids_refused sortByIdBytes audited 5 6 "a/b")
    as ([Hread _] & Hresponse & _ & Hupsert & _).
  { exists "a", "b". by repeat split. }
  split; [exact Hread|]. split; [apply (Hresponse "X")|].
  by apply (Hupsert "X" (response_request (JStr "a/b") (Some []) JUndefined) []).
Defined.
